(** * VolumeProfile: the piston-velocity callback of the 0-D reactor notebook

    The notebook [0D_velocity_example.ipynb] defines one class of its own,
    [VolumeProfile].  Its constructor stores a time trace and a volume trace
    (normalised by the first volume) and pre-computes forward-difference
    velocities; calling the object at a time [t] looks the velocity up as a
    step function.

    The notebook passes one-dimensional NumPy arrays of [float64], read
    from a file.  Arrays are lists here.  The embedding is written once
    over a small interface of scalar operations ([Scalar]) and is
    instantiated twice: with IEEE-754 binary64 numbers (Rocq's primitive
    floats, the arithmetic the notebook runs) and with exact rationals (the
    arithmetic it approximates).  Python exceptions are values of an error
    monad; NumPy's floating-point warnings (a division by zero yields an
    infinity or a NaN and a warning, not an exception) are not modelled. *)

From Stdlib Require Import List Bool Arith ZArith QArith Lia Lqa Floats.
Import ListNotations.

Close Scope Q_scope.
Open Scope nat_scope.

(** * The model *)

(** ** Python exceptions *)

Inductive exn : Type :=
| IndexError   (* an index out of bounds *)
| ValueError.  (* operands could not be broadcast together *)

Inductive result (A : Type) : Type :=
| Ok (a : A)
| Raise (e : exn).

Arguments Ok {A} a.
Arguments Raise {A} e.

Definition bind {A B : Type} (m : result A) (k : A -> result B) : result B :=
  match m with
  | Ok a => k a
  | Raise e => Raise e
  end.

Notation "x <- m ;; k" := (bind m (fun x => k))
  (at level 61, m at next level, right associativity).

(** ** Scalars *)

(** The operations the class applies to array elements: the literal [0],
    [-], [/], [<=] and [==].  The other fields, [one], [<] and
    [is_finite], are used only to state properties. *)
Class Scalar : Type := {
  num : Type;
  zero : num;
  one : num;
  sub : num -> num -> num;
  div : num -> num -> num;
  leb : num -> num -> bool;
  ltb : num -> num -> bool;
  eqb : num -> num -> bool;
  is_finite : num -> bool
}.

(** [x >= y] is [y <= x], for IEEE numbers as well. *)
Definition geb {K : Scalar} (x y : num) : bool := leb y x.

(** What the lookup needs of the comparisons.  A NaN is an [x] with
    [leb x x = false]; the laws hold for it because every comparison with
    it is false. *)
Class ScalarLaws (K : Scalar) : Prop := {
  leb_trans : forall x y z, leb x y = true -> leb y z = true -> leb x z = true;
  leb_refl_l : forall x y, leb x y = true -> leb x x = true;
  leb_refl_r : forall x y, leb x y = true -> leb y y = true;
  leb_total : forall x y,
      leb x x = true -> leb y y = true -> leb x y = true \/ leb y x = true;
  ltb_leb : forall x y, ltb x y = (leb x y && negb (leb y x))%bool;
  eqb_leb : forall x y, eqb x y = (leb x y && leb y x)%bool
}.

(** What the normalisation and the forward differences need of the
    arithmetic: a finite nonzero number divided by itself is one, and two
    numbers in strict order have a nonzero difference. *)
Class ArithLaws (K : Scalar) : Prop := {
  div_self : forall x,
      is_finite x = true -> eqb x zero = false -> eqb (div x x) one = true;
  sub_lt_nonzero : forall x y, ltb x y = true -> eqb (sub y x) zero = false
}.

(** *** IEEE-754 binary64 ([numpy.float64]) *)

#[export] Instance binary64 : Scalar := {|
  num := float;
  zero := PrimFloat.zero;
  one := PrimFloat.one;
  sub := PrimFloat.sub;
  div := PrimFloat.div;
  leb := PrimFloat.leb;
  ltb := PrimFloat.ltb;
  eqb := PrimFloat.eqb;
  is_finite := PrimFloat.is_finite
|}.

(** *** Exact rationals *)

(** The arithmetic the floating-point run approximates.  [Qdiv] is total
    and gives [x / 0 = 0], where float64 gives an infinity or a NaN: the
    two agree on no quotient by zero.  Every theorem stated at [exact]
    therefore carries hypotheses under which no divisor is zero, a nonzero
    (or positive) first volume for the normalisation and strictly
    increasing (or positively stepped) times for the time deltas. *)
#[export] Instance exact : Scalar := {|
  num := Q;
  zero := 0%Q;
  one := 1%Q;
  sub := Qminus;
  div := Qdiv;
  leb := Qle_bool;
  ltb := fun x y => negb (Qle_bool y x);
  eqb := Qeq_bool;
  is_finite := fun _ => true
|}.

(** ** The NumPy operations the class uses, on one-dimensional arrays *)

Section NumPy.
Context {K : Scalar}.

(** [a[i]] for an index [i >= 0]. *)
Definition getitem {A : Type} (a : list A) (i : nat) : result A :=
  match nth_error a i with
  | Some x => Ok x
  | None => Raise IndexError
  end.

(** [a[-1]]. *)
Fixpoint last_of {A : Type} (x : A) (a : list A) : A :=
  match a with
  | [] => x
  | y :: tl => last_of y tl
  end.

Definition getitem_last {A : Type} (a : list A) : result A :=
  match a with
  | [] => Raise IndexError
  | x :: tl => Ok (last_of x tl)
  end.

(** [np.diff(a)], that is [a[1:] - a[:-1]]. *)
Fixpoint np_diff (a : list num) : list num :=
  match a with
  | x :: (y :: _) as tl => sub y x :: np_diff tl
  | _ => []
  end.

(** [a / s] for a scalar [s]. *)
Definition divide_scalar (a : list num) (s : num) : list num :=
  map (fun x => div x s) a.

Fixpoint divide_elementwise (a b : list num) : list num :=
  match a, b with
  | x :: a', y :: b' => div x y :: divide_elementwise a' b'
  | _, _ => []
  end.

(** [a / b] for two arrays: elementwise when the shapes agree, an array
    of length one is broadcast against the other, and any other pair of
    shapes raises [ValueError]. *)
Definition divide (a b : list num) : result (list num) :=
  if Nat.eqb (length a) (length b) then Ok (divide_elementwise a b)
  else match a, b with
       | [x], _ => Ok (map (fun y => div x y) b)
       | _, [y] => Ok (divide_scalar a y)
       | _, _ => Raise ValueError
       end.

(** [np.append(a, x)]. *)
Definition np_append (a : list num) (x : num) : list num := a ++ [x].

(** [a <= t] and [a == x]: arrays of booleans. *)
Definition less_equal (a : list num) (t : num) : list bool :=
  map (fun x => leb x t) a.

Definition equal (a : list num) (x : num) : list bool :=
  map (fun y => eqb y x) a.

(** [a[mask]] for a boolean array [mask] of the shape of [a]. *)
Fixpoint getitem_mask {A : Type} (a : list A) (mask : list bool) : list A :=
  match a, mask with
  | x :: a', b :: mask' =>
      if b then x :: getitem_mask a' mask' else getitem_mask a' mask'
  | _, _ => []
  end.

(** [np.where(mask)[0]]: the indices at which [mask] is true, ascending. *)
Fixpoint where_from (i : nat) (mask : list bool) : list nat :=
  match mask with
  | [] => []
  | b :: mask' =>
      if b then i :: where_from (S i) mask' else where_from (S i) mask'
  end.

Definition np_where (mask : list bool) : list nat := where_from 0 mask.
End NumPy.

(** ** The class *)

Section VolumeProfile.
Context {K : Scalar}.

Record VolumeProfile : Type := {
  time : list num;
  volume : list num;
  velocity : list num
}.

(** [VolumeProfile.__init__(self, time, volume)].  The result is the
    object after construction, or the exception the constructor raises. *)
Definition __init__ (time volume : list num) : result VolumeProfile :=
  let self_time := time in
  v0 <- getitem volume 0 ;;
  let self_volume := divide_scalar volume v0 in
  velocity <- divide (np_diff self_volume) (np_diff self_time) ;;
  let velocity := np_append velocity zero in
  Ok {| time := self_time; volume := self_volume; velocity := velocity |}.

(** [VolumeProfile.__call__(self, t)].  The literal [0] of the [else]
    branch is the scalar [zero]. *)
Definition __call__ (self : VolumeProfile) (t : num) : result num :=
  t_last <- getitem_last (time self) ;;
  if leb t t_last then
    t_first <- getitem (time self) 0 ;;
    if geb t t_first then
      prev_time_point <-
        getitem_last (getitem_mask (time self) (less_equal (time self) t)) ;;
      index <- getitem (np_where (equal (time self) prev_time_point)) 0 ;;
      getitem (velocity self) index
    else Ok zero
  else Ok zero.
End VolumeProfile.

(** * Vocabulary of the specification *)

(** ** Properties of the inputs *)

Section InputProperties.
Context {K : Scalar}.

(** Not a NaN. *)
Definition is_number (x : num) : bool := leb x x.

Fixpoint adjacent (r : num -> num -> bool) (a : list num) : bool :=
  match a with
  | x :: (y :: _) as tl => r x y && adjacent r tl
  | _ => true
  end.

(** The samples are numbers and each is strictly below the next. *)
Definition strictly_increasing (a : list num) : bool :=
  forallb is_number a && adjacent ltb a.

(** The samples are numbers in order; repeated values are allowed. *)
Definition nondecreasing (a : list num) : bool :=
  forallb is_number a && adjacent leb a.

(** [time[0] <= t <= time[-1]]. *)
Definition in_range (a : list num) (t : num) : Prop :=
  exists t_first t_last,
    getitem a 0 = Ok t_first /\ getitem_last a = Ok t_last /\
    leb t_first t = true /\ leb t t_last = true.
End InputProperties.

Section Vocabulary.
Context {K : Scalar}.

(** [prev] is the largest sample of [a] not exceeding [t]. *)
Definition largest_not_exceeding (a : list num) (t prev : num) : Prop :=
  In prev a /\ leb prev t = true /\
  forall x, In x a -> leb x t = true -> leb x prev = true.

(** [i] is the first index of [a] whose sample compares equal to [x]. *)
Definition first_index_of (a : list num) (x : num) (i : nat) : Prop :=
  (exists ti, nth_error a i = Some ti /\ eqb ti x = true) /\
  forall j tj, j < i -> nth_error a j = Some tj -> eqb tj x = false.

(** The [n-1] forward differences of the normalised volume over the time
    deltas, entry by entry. *)
Definition forward_differences (time volume : list num) (v0 : num)
           (fd : list num) : Prop :=
  length fd = length time - 1 /\
  forall i ti ti' vi vi',
    nth_error time i = Some ti -> nth_error time (S i) = Some ti' ->
    nth_error volume i = Some vi -> nth_error volume (S i) = Some vi' ->
    nth_error fd i = Some (div (sub (div vi' v0) (div vi v0)) (sub ti' ti)).
End Vocabulary.

(** The lookup described by the largest time not exceeding [t] and a
    tie-break [rule] from that time value to an index. *)
Definition lookup_by_largest_time {K : Scalar} (p : VolumeProfile)
           (rule : num -> nat) (t : num) : Prop :=
  exists prev, largest_not_exceeding (time p) t prev /\
               __call__ p t = getitem (velocity p) (rule prev).

Section Divisions.
Context {K : Scalar}.

Definition nonzero (d : num) : bool := negb (eqb d zero).

(** A division: the numerator and the divisor. *)
Definition quotient (op : num * num) : num := div (fst op) (snd op).

(** The divisions the constructor performs on inputs of one length, in
    order: each volume entry over [volume[0]], then each difference of the
    normalised volume over its time delta. *)
Definition init_divisions (ts vs : list num) : result (list (num * num)) :=
  v0 <- getitem vs 0 ;;
  let self_volume := divide_scalar vs v0 in
  Ok (map (fun v => (v, v0)) vs ++ combine (np_diff self_volume) (np_diff ts)).
End Divisions.

Section Uniform.
Context {K : Scalar}.

(** The entries are positive and all compare equal to the first. *)
Definition all_equal_positive (l : list num) : bool :=
  match l with
  | [] => true
  | c :: l' => ltb zero c && forallb (fun x => eqb x c) l'
  end.

(** Consecutive samples differ by one positive step: uniform spacing of a
    time trace, a strictly linearly increasing volume trace. *)
Definition uniform_positive_steps (a : list num) : bool :=
  all_equal_positive (np_diff a).
End Uniform.

(** A zero of either sign, on the specification side of binary64. *)
Definition SF_is_zero (x : spec_float) : bool :=
  match x with S754_zero _ => true | _ => false end.

(** ** Sample profiles *)

(** Three samples one time unit apart, volumes 3, 4 and 5. *)
Definition sample_time : list (@num binary64) := [0; 1; 2]%float.
Definition sample_volume : list (@num binary64) := [3; 4; 5]%float.

Definition sample_profile : VolumeProfile (K := binary64) :=
  {| time := sample_time;
     volume := [1; 0x1.5555555555555p+0; 0x1.aaaaaaaaaaaabp+0]%float;
     velocity := [0x1.5555555555554p-2; 0x1.5555555555558p-2; 0]%float |}.

(** A time trace whose last value is repeated. *)
Definition repeated_time : list (@num binary64) := [0; 1; 1]%float.
Definition repeated_volume : list (@num binary64) := [1; 2; 3]%float.

Definition repeated_profile : VolumeProfile (K := binary64) :=
  {| time := repeated_time;
     volume := [1; 2; 3]%float;
     velocity := [1; infinity; 0]%float |}.

(** A volume trace whose first value is not finite. *)
Definition unbounded_volume : list (@num binary64) := [infinity; 1]%float.

(** A volume trace whose first value is zero. *)
Definition zero_first_volume : list (@num binary64) := [0; 1]%float.

(** In exact arithmetic: the sample times, with volumes rising linearly
    from a negative value. *)
Definition exact_time : list (@num exact) := [0; 1; 2]%Q.
Definition rising_negative_volume : list (@num exact) := [-2; -1; 0]%Q.

(** ** Vocabulary of the further properties *)

(** Two shapes [(m,)] and [(k,)] can be broadcast together, and the shape
    of the result, [(broadcast_length m k,)]. *)
Definition broadcastable (m k : nat) : bool :=
  Nat.eqb m k || Nat.eqb m 1 || Nat.eqb k 1.

Definition broadcast_length (m k : nat) : nat :=
  if Nat.eqb m k then m else if Nat.eqb m 1 then k else m.

(** [prev] is the last entry of [a], in array order, that does not exceed
    [t]: for an array that is not in order, what
    [self.time[self.time <= t][-1]] selects. *)
Definition last_not_exceeding {K : Scalar} (a : list num) (t prev : num)
  : Prop :=
  exists k,
    nth_error a k = Some prev /\ leb prev t = true /\
    forall j x, k < j -> nth_error a j = Some x -> leb x t = false.

(** What the constant-volume case needs of the arithmetic: a finite nonzero
    number over itself, minus the same, is zero, and zero over the
    difference of two numbers in strict order is zero. *)
Class CancelLaws (K : Scalar) : Prop := {
  eqb_zero_zero : eqb zero zero = true;
  sub_div_self : forall x,
      is_finite x = true -> eqb x zero = false ->
      eqb (sub (div x x) (div x x)) zero = true;
  div_zero_delta : forall z x y,
      eqb z zero = true -> ltb x y = true ->
      eqb (div z (sub y x)) zero = true
}.

(** Not a NaN, on the specification side of binary64. *)
Definition SF_is_number (x : spec_float) : bool :=
  match x with S754_nan => false | _ => true end.

(** Neither infinite nor a NaN, on the specification side of binary64. *)
Definition SF_is_finite (x : spec_float) : bool :=
  match x with
  | S754_zero _ | S754_finite _ _ _ => true
  | S754_infinity _ | S754_nan => false
  end.

(** In exact arithmetic: the running sum [start], [start + v0 * d0],
    [start + v0 * d0 + v1 * d1], ... of the velocities [vel] over the time
    deltas [dts], one entry more than there are deltas. *)
Fixpoint cumulative (start : Q) (vel dts : list Q) : list Q :=
  start ::
  match vel, dts with
  | v :: vel', d :: dts' => cumulative (start + v * d)%Q vel' dts'
  | _, _ => []
  end.

(** A time trace that is not in order. *)
Definition unordered_time : list (@num binary64) := [0; 2; 1; 3]%float.
Definition unordered_volume : list (@num binary64) := [1; 2; 3; 4]%float.

Definition unordered_profile : VolumeProfile (K := binary64) :=
  {| time := unordered_time;
     volume := [1; 2; 3; 4]%float;
     velocity := [0.5; -1; 0.5; 0]%float |}.

(** A constant volume trace. *)
Definition constant_volume : list (@num binary64) := [3; 3; 3]%float.

Definition resting_profile : VolumeProfile (K := binary64) :=
  {| time := sample_time;
     volume := [1; 1; 1]%float;
     velocity := [0; 0; 0]%float |}.

(** ** The recording loops *)

(** The notebook runs the reactor network twice with the same loop,
    [[
    while reac.T < 2500 and netw.time < 0.1:
        time.append(netw.time)
        temperature.append(reac.T)
        pressure.append(reac.thermo.P)
        volume.append(reac.volume)
        netw.step()
    ]]
    once on the constant-volume reactor and once with the piston.  The
    reactor and the network are Cantera's; the loop sees them through four
    attribute reads and [netw.step()]. *)
Module Run.

(** What the loop uses of Cantera: the state of [netw] and [reac], its
    four observables, and one integrator step ([None] when the library
    raises). *)
Class Cantera {K : Scalar} : Type := {
  Net : Type;
  reac_T : Net -> num;
  reac_thermo_P : Net -> num;
  reac_volume : Net -> num;
  netw_time : Net -> num;
  netw_step : Net -> option Net
}.

Section Loop.
Context {K : Scalar} {C : Cantera}.

(** The four lists the loop appends to. *)
Record Recording : Type := {
  time : list num;
  temperature : list num;
  pressure : list num;
  volume : list num
}.

Definition empty : Recording :=
  {| time := []; temperature := []; pressure := []; volume := [] |}.

(** The four [append] calls of the loop body. *)
Definition append (r : Recording) (net : Net) : Recording :=
  {| time := time r ++ [netw_time net];
     temperature := temperature r ++ [reac_T net];
     pressure := pressure r ++ [reac_thermo_P net];
     volume := volume r ++ [reac_volume net] |}.

(** How a run of the loop ends: the condition became false, the library
    raised in [netw.step()], or the run was cut off. *)
Inductive outcome : Type := Finished | Raised | OutOfFuel.

(** The loop condition, with the limits [T_end] and [t_end]. *)
Definition running (T_end t_end : num) (net : Net) : bool :=
  ltb (reac_T net) T_end && ltb (netw_time net) t_end.

(** The loop, cut off after [fuel] iterations: the state of the network,
    the lists and the outcome. *)
Fixpoint loop (T_end t_end : num) (fuel : nat) (net : Net) (r : Recording)
         {struct fuel} : Net * Recording * outcome :=
  if running T_end t_end net then
    match fuel with
    | 0 => (net, r, OutOfFuel)
    | S fuel' =>
        let r' := append r net in
        match netw_step net with
        | Some net' => loop T_end t_end fuel' net' r'
        | None => (net, r', Raised)
        end
    end
  else (net, r, Finished).

(** The state after [k] integrator steps. *)
Fixpoint iterate (k : nat) (net : Net) : option Net :=
  match k with
  | 0 => Some net
  | S k' =>
      match netw_step net with
      | Some net' => iterate k' net'
      | None => None
      end
  end.

(** The lists that record the states [states], in order. *)
Definition observed (states : list Net) : Recording :=
  {| time := map netw_time states;
     temperature := map reac_T states;
     pressure := map reac_thermo_P states;
     volume := map reac_volume states |}.

(** [states] are the states the network went through from [net], one
    integrator step apart, and [final] is the state after the last step. *)
Fixpoint trajectory (net : Net) (states : list Net) (final : Net) : Prop :=
  match states with
  | [] => final = net
  | s :: rest =>
      s = net /\
      exists net', netw_step net = Some net' /\ trajectory net' rest final
  end.
End Loop.

(** The loop as the notebook has it: 2500 K and 0.1 s. *)
Definition notebook_loop {C : Cantera (K := binary64)} :=
  loop (K := binary64) 2500%float 0x1.999999999999ap-4%float.

(** A stand-in for the library, to run the loop on: the state is a step
    count, the temperature is 300 K, 1000 K, then 3000 K, and the clock
    advances 0.03125 s a step. *)
Definition stand_in : Cantera (K := binary64) := {|
  Net := nat;
  reac_T := fun n => (nth n [300; 1000]%float 3000%float : @num binary64);
  reac_thermo_P := fun _ => (101325%float : @num binary64);
  reac_volume := fun _ => (1%float : @num binary64);
  netw_time :=
    fun n => (nth n [0; 0.03125; 0.0625]%float 0.09375%float : @num binary64);
  netw_step := fun n => Some (S n)
|}.
End Run.

(** * Lemmas *)

(** ** Lemmas on the array operations *)

Section ArrayFacts.
Context {K : Scalar}.

Lemma getitem_Ok {A : Type} (a : list A) (i : nat) (x : A) :
  getitem a i = Ok x <-> nth_error a i = Some x.
Proof.
  unfold getitem. destruct (nth_error a i); split; intros H;
    inversion H; reflexivity.
Qed.

Lemma getitem_mask_filter {A : Type} (f : A -> bool) (a : list A) :
  getitem_mask a (map f a) = filter f a.
Proof.
  induction a as [|x a IH]; simpl; [reflexivity|].
  rewrite IH. reflexivity.
Qed.

Lemma getitem_last_nth {A : Type} (a : list A) (x : A) :
  getitem_last a = Ok x <-> (a <> [] /\ nth_error a (length a - 1) = Some x).
Proof.
  destruct a as [|y a]; simpl.
  - split; [discriminate | intros [H _]; contradiction].
  - rewrite Nat.sub_0_r. revert y.
    induction a as [|z a IH]; intros y; simpl.
    + split; intros H.
      * inversion H; split; [discriminate | reflexivity].
      * destruct H as [_ H]; inversion H; reflexivity.
    + specialize (IH z). simpl in IH.
      split; intros H.
      * split; [discriminate|]. apply IH in H. apply H.
      * apply IH. split; [discriminate | apply H].
Qed.

Lemma where_from_first (mask : list bool) :
  forall k i,
    nth_error mask i = Some true ->
    (forall j, j < i -> nth_error mask j = Some false) ->
    getitem (where_from k mask) 0 = Ok (k + i).
Proof.
  induction mask as [|b mask IH]; intros k i Hi Hlt.
  - destruct i; discriminate.
  - destruct i as [|i]; simpl in *.
    + inversion Hi; subst. simpl. rewrite Nat.add_0_r. reflexivity.
    + assert (Hb : b = false).
      { specialize (Hlt 0 (Nat.lt_0_succ i)). simpl in Hlt.
        inversion Hlt; reflexivity. }
      subst b. rewrite (IH (S k) i Hi).
      * rewrite Nat.add_succ_r. reflexivity.
      * intros j Hj. apply (Hlt (S j)). lia.
Qed.

Lemma first_true (mask : list bool) :
  In true mask ->
  exists i, nth_error mask i = Some true /\
            forall j, j < i -> nth_error mask j = Some false.
Proof.
  induction mask as [|b mask IH]; intros Hin; [destruct Hin|].
  destruct b.
  - exists 0. split; [reflexivity | intros j Hj; lia].
  - destruct Hin as [Hin | Hin]; [discriminate|].
    destruct (IH Hin) as [i [Hi Hlt]].
    exists (S i). split; [exact Hi|].
    intros [|j] Hj; [reflexivity|]. apply Hlt. lia.
Qed.

Lemma np_diff_length (a : list num) : length (np_diff a) = length a - 1.
Proof.
  induction a as [|x [|y a] IH]; simpl in *; try reflexivity.
  rewrite IH. lia.
Qed.

Lemma divide_elementwise_length (a b : list num) :
  length a = length b -> length (divide_elementwise a b) = length a.
Proof.
  revert b. induction a as [|x a IH]; intros [|y b] H; simpl in *;
    try discriminate; try reflexivity.
  f_equal. apply IH. lia.
Qed.

Lemma divide_elementwise_nth (a b : list num) (i : nat) (x y : num) :
  nth_error a i = Some x -> nth_error b i = Some y ->
  nth_error (divide_elementwise a b) i = Some (div x y).
Proof.
  revert b i. induction a as [|x' a IH]; intros [|y' b] [|i] Ha Hb;
    simpl in *; try discriminate.
  - inversion Ha; inversion Hb; reflexivity.
  - apply IH; assumption.
Qed.

Lemma np_diff_nth (a : list num) (i : nat) (x y : num) :
  nth_error a i = Some x -> nth_error a (S i) = Some y ->
  nth_error (np_diff a) i = Some (sub y x).
Proof.
  revert i. induction a as [|x' [|y' a] IH]; intros i Hx Hy.
  - destruct i; discriminate.
  - destruct i as [|[|i]]; simpl in Hy; discriminate.
  - destruct i as [|i].
    + simpl in *. inversion Hx; inversion Hy; reflexivity.
    + change (nth_error (np_diff (y' :: a)) i = Some (sub y x)).
      apply IH; assumption.
Qed.

Lemma divide_same_length (a b : list num) :
  length a = length b -> divide a b = Ok (divide_elementwise a b).
Proof.
  intros H. unfold divide. rewrite H, Nat.eqb_refl. reflexivity.
Qed.
End ArrayFacts.

(** ** Lemmas on ordered samples and on the lookup *)

Section OrderFacts.
Context {K : Scalar} {L : ScalarLaws K}.

Lemma ltb_true (x y : num) :
  ltb x y = true <-> leb x y = true /\ leb y x = false.
Proof.
  rewrite ltb_leb, andb_true_iff, negb_true_iff. reflexivity.
Qed.

Lemma eqb_true (x y : num) :
  eqb x y = true <-> leb x y = true /\ leb y x = true.
Proof. rewrite eqb_leb, andb_true_iff. reflexivity. Qed.

Lemma ltb_trans (x y z : num) :
  ltb x y = true -> ltb y z = true -> ltb x z = true.
Proof.
  rewrite !ltb_true. intros [Hxy _] [Hyz Hzy]. split.
  - apply (leb_trans _ _ _ Hxy Hyz).
  - destruct (leb z x) eqn:Hzx; [|reflexivity].
    rewrite (leb_trans _ _ _ Hzx Hxy) in Hzy. discriminate.
Qed.

Lemma ltb_leb_true (x y : num) : ltb x y = true -> leb x y = true.
Proof. rewrite ltb_true. tauto. Qed.

Lemma adjacent_weaken (r r' : num -> num -> bool) (a : list num) :
  (forall x y, r x y = true -> r' x y = true) ->
  adjacent r a = true -> adjacent r' a = true.
Proof.
  intros Hr. induction a as [|x [|y a] IH]; simpl; try reflexivity.
  rewrite !andb_true_iff. intros [H1 H2]. split; [apply Hr, H1 | apply IH, H2].
Qed.

Lemma strictly_increasing_nondecreasing (a : list num) :
  strictly_increasing a = true -> nondecreasing a = true.
Proof.
  unfold strictly_increasing, nondecreasing. rewrite !andb_true_iff.
  intros [H1 H2]. split; [exact H1|].
  apply (adjacent_weaken ltb leb); [apply ltb_leb_true | exact H2].
Qed.

Lemma adjacent_cons (r : num -> num -> bool) (x : num) (a : list num) :
  (forall x y z, r x y = true -> r y z = true -> r x z = true) ->
  adjacent r (x :: a) = true ->
  adjacent r a = true /\ forall y, In y a -> r x y = true.
Proof.
  intros Htrans. revert x. induction a as [|y a IH]; intros x H.
  - split; [reflexivity | intros y []].
  - simpl in H. apply andb_true_iff in H. destruct H as [Hxy Ha].
    split; [exact Ha|]. intros z [Hz | Hz]; [subst; exact Hxy|].
    apply (Htrans x y z Hxy). apply (IH y Ha). exact Hz.
Qed.

Lemma nondecreasing_cons (x : num) (a : list num) :
  nondecreasing (x :: a) = true ->
  nondecreasing a = true /\ is_number x = true /\
  forall y, In y a -> leb x y = true.
Proof.
  unfold nondecreasing. simpl forallb. rewrite !andb_true_iff.
  intros [[Hx Ha] Hadj].
  destruct (adjacent_cons leb x a leb_trans Hadj) as [H1 H2]. auto.
Qed.

Lemma strictly_increasing_cons (x : num) (a : list num) :
  strictly_increasing (x :: a) = true ->
  strictly_increasing a = true /\ is_number x = true /\
  forall y, In y a -> ltb x y = true.
Proof.
  unfold strictly_increasing. simpl forallb. rewrite !andb_true_iff.
  intros [[Hx Ha] Hadj].
  destruct (adjacent_cons ltb x a ltb_trans Hadj) as [H1 H2]. auto.
Qed.

Lemma nondecreasing_is_number (a : list num) (x : num) :
  nondecreasing a = true -> In x a -> is_number x = true.
Proof.
  unfold nondecreasing. rewrite andb_true_iff, forallb_forall.
  intros [H _]. apply H.
Qed.

(** In an ordered array earlier entries are below later ones. *)
Lemma nondecreasing_nth (a : list num) :
  nondecreasing a = true ->
  forall i j x y, i <= j -> nth_error a i = Some x -> nth_error a j = Some y ->
                  leb x y = true.
Proof.
  induction a as [|z a IH]; intros Ha i j x y Hij Hi Hj.
  - destruct i; discriminate.
  - destruct (nondecreasing_cons _ _ Ha) as [Ha' [Hz Hall]].
    destruct i as [|i]; destruct j as [|j]; simpl in *; try lia.
    + inversion Hi; inversion Hj; subst. exact Hz.
    + inversion Hi; subst. apply Hall. apply (nth_error_In _ _ Hj).
    + apply (IH Ha' i j); [lia | assumption | assumption].
Qed.

Lemma strictly_increasing_nth (a : list num) :
  strictly_increasing a = true ->
  forall i j x y, i < j -> nth_error a i = Some x -> nth_error a j = Some y ->
                  ltb x y = true.
Proof.
  induction a as [|z a IH]; intros Ha i j x y Hij Hi Hj.
  - destruct i; discriminate.
  - destruct (strictly_increasing_cons _ _ Ha) as [Ha' [Hz Hall]].
    destruct i as [|i]; destruct j as [|j]; simpl in *; try lia.
    + inversion Hi; subst. apply Hall. apply (nth_error_In _ _ Hj).
    + apply (IH Ha' i j); [lia | assumption | assumption].
Qed.

(** Numerically equal entries of a strictly increasing array are the
    same entry. *)
Lemma strictly_increasing_eqb_index (a : list num) (i j : nat) (x y : num) :
  strictly_increasing a = true ->
  nth_error a i = Some x -> nth_error a j = Some y ->
  eqb x y = true -> i = j.
Proof.
  intros Ha Hi Hj Heq. apply eqb_true in Heq. destruct Heq as [Hxy Hyx].
  destruct (Nat.lt_trichotomy i j) as [Hlt | [Heq | Hgt]]; [|exact Heq|].
  - pose proof (strictly_increasing_nth a Ha i j x y Hlt Hi Hj) as H.
    apply ltb_true in H. destruct H as [_ H]. congruence.
  - pose proof (strictly_increasing_nth a Ha j i y x Hgt Hj Hi) as H.
    apply ltb_true in H. destruct H as [_ H]. congruence.
Qed.

Lemma getitem_last_skip {A : Type} (x p : A) (a : list A) :
  getitem_last a = Ok p -> getitem_last (x :: a) = Ok p.
Proof. destruct a as [|y a]; [discriminate | exact (fun H => H)]. Qed.

(** [self.time[self.time <= t][-1]] on an ordered array: the largest
    sample not exceeding [t]. *)
Lemma prev_time_point_spec (a : list num) (t : num) :
  nondecreasing a = true ->
  (exists x, In x a /\ leb x t = true) ->
  exists prev,
    getitem_last (getitem_mask a (less_equal a t)) = Ok prev /\
    In prev a /\ leb prev t = true /\
    forall x, In x a -> leb x t = true -> leb x prev = true.
Proof.
  unfold less_equal. rewrite getitem_mask_filter.
  induction a as [|x a IH]; intros Ha Hex.
  - destruct Hex as [x [[] _]].
  - destruct (nondecreasing_cons _ _ Ha) as [Ha' [Hx Hall]].
    destruct (existsb (fun y => leb y t) a) eqn:Hany.
    + apply existsb_exists in Hany.
      destruct (IH Ha' Hany) as [prev [Hlast [Hin [Hle Hmax]]]].
      exists prev. split; [|split; [|split]].
      * simpl. destruct (leb x t); [apply getitem_last_skip|]; exact Hlast.
      * right; exact Hin.
      * exact Hle.
      * intros y [Hy | Hy] Hyt; [subst y; apply Hall, Hin | apply Hmax; assumption].
    + assert (Hnone : forall y, In y a -> leb y t = false).
      { intros y Hy. destruct (leb y t) eqn:E; [|reflexivity].
        rewrite <- Hany. symmetry. apply existsb_exists. exists y; auto. }
      assert (Hxt : leb x t = true).
      { destruct Hex as [y [[Hy | Hy] Hyt]]; [subst; exact Hyt|].
        rewrite (Hnone y Hy) in Hyt. discriminate. }
      assert (Hnil : filter (fun y => leb y t) a = []).
      { clear -Hnone. induction a as [|y a IH]; simpl; [reflexivity|].
        rewrite (Hnone y (or_introl eq_refl)). apply IH.
        intros z Hz. apply Hnone. right; exact Hz. }
      exists x. simpl. rewrite Hxt, Hnil. split; [|split; [|split]].
      * reflexivity.
      * left; reflexivity.
      * reflexivity.
      * intros y [Hy | Hy] Hyt; [subst y; exact Hx|].
        rewrite (Hnone y Hy) in Hyt. discriminate.
Qed.

(** [np.where(self.time == prev)[0][0]]: the first index whose sample
    compares equal to [prev]. *)
Lemma index_spec (a : list num) (prev : num) :
  In prev a -> is_number prev = true ->
  exists i ti,
    getitem (np_where (equal a prev)) 0 = Ok i /\
    nth_error a i = Some ti /\ eqb ti prev = true /\
    forall j tj, j < i -> nth_error a j = Some tj -> eqb tj prev = false.
Proof.
  intros Hin Hnum.
  assert (Htrue : In true (equal a prev)).
  { unfold equal. apply in_map_iff. exists prev. split; [|exact Hin].
    apply eqb_true. split; exact Hnum. }
  destruct (first_true _ Htrue) as [i [Hi Hlt]].
  unfold np_where. rewrite (where_from_first _ 0 i Hi Hlt). simpl.
  unfold equal in Hi, Hlt. rewrite nth_error_map in Hi.
  destruct (nth_error a i) as [ti|] eqn:Hti; [|discriminate].
  exists i, ti. split; [|split; [|split]].
  - reflexivity.
  - exact Hti.
  - inversion Hi; reflexivity.
  - intros j tj Hj Htj. specialize (Hlt j Hj).
    rewrite nth_error_map, Htj in Hlt. inversion Hlt; reflexivity.
Qed.
End OrderFacts.

(** ** The constructor *)

Section InitFacts.
Context {K : Scalar}.

Lemma init_equal_length (ts vs : list num) (v0 : num) :
  length ts = length vs -> getitem vs 0 = Ok v0 ->
  __init__ ts vs =
  Ok {| time := ts;
        volume := divide_scalar vs v0;
        velocity := divide_elementwise (np_diff (divide_scalar vs v0))
                                       (np_diff ts) ++ [zero] |}.
Proof.
  intros Hlen Hv0. unfold __init__. rewrite Hv0. simpl.
  rewrite divide_same_length.
  - reflexivity.
  - rewrite !np_diff_length. unfold divide_scalar. rewrite length_map. lia.
Qed.

Lemma init_inv (ts vs : list num) (p : VolumeProfile) :
  length ts = length vs -> __init__ ts vs = Ok p ->
  exists v0, getitem vs 0 = Ok v0 /\
    p = {| time := ts;
           volume := divide_scalar vs v0;
           velocity := divide_elementwise (np_diff (divide_scalar vs v0))
                                          (np_diff ts) ++ [zero] |}.
Proof.
  intros Hlen Hp. destruct (getitem vs 0) as [v0|e] eqn:Hv0.
  - exists v0. split; [reflexivity|].
    rewrite (init_equal_length _ _ _ Hlen Hv0) in Hp. inversion Hp. reflexivity.
  - unfold __init__ in Hp. rewrite Hv0 in Hp. discriminate.
Qed.

Lemma forward_differences_init (ts vs : list num) (v0 : num) :
  length ts = length vs ->
  forward_differences ts vs v0
    (divide_elementwise (np_diff (divide_scalar vs v0)) (np_diff ts)).
Proof.
  intros Hlen. split.
  - rewrite divide_elementwise_length; rewrite !np_diff_length;
      unfold divide_scalar; rewrite length_map; lia.
  - intros i ti ti' vi vi' Hti Hti' Hvi Hvi'.
    apply divide_elementwise_nth.
    + apply np_diff_nth; unfold divide_scalar; rewrite nth_error_map.
      * rewrite Hvi; reflexivity.
      * rewrite Hvi'; reflexivity.
    + apply np_diff_nth; assumption.
Qed.

Lemma init_velocity_length (ts vs : list num) (p : VolumeProfile) :
  length ts = length vs -> __init__ ts vs = Ok p ->
  length (velocity p) = length ts.
Proof.
  intros Hlen Hp. destruct (init_inv _ _ _ Hlen Hp) as [v0 [Hv0 ->]]. simpl.
  rewrite length_app. simpl.
  destruct (forward_differences_init ts vs v0 Hlen) as [-> _].
  destruct vs as [|v vs]; [discriminate|].
  destruct ts as [|t ts]; [discriminate|]. simpl. lia.
Qed.

Lemma init_time (ts vs : list num) (p : VolumeProfile) :
  __init__ ts vs = Ok p -> time p = ts.
Proof.
  unfold __init__. destruct (getitem vs 0); simpl; [|discriminate].
  destruct (divide _ _); simpl; [|discriminate].
  intros H; inversion H; reflexivity.
Qed.
End InitFacts.

(** ** The lookup *)

Section CallFacts.
Context {K : Scalar} {L : ScalarLaws K}.

(** Outside the guard the call returns the literal [0]. *)
Lemma call_below (self : VolumeProfile) (t t_first : num) :
  getitem (time self) 0 = Ok t_first -> leb t_first t = false ->
  __call__ self t = Ok zero.
Proof.
  intros Hfirst Hlt. unfold __call__.
  destruct (getitem_last (time self)) as [t_last|e] eqn:Hlast.
  - simpl. destruct (leb t t_last); [|reflexivity].
    rewrite Hfirst. simpl. unfold geb. rewrite Hlt. reflexivity.
  - destruct (time self); discriminate.
Qed.

Lemma call_above (self : VolumeProfile) (t t_last : num) :
  getitem_last (time self) = Ok t_last -> leb t t_last = false ->
  __call__ self t = Ok zero.
Proof.
  intros Hlast Hgt. unfold __call__. rewrite Hlast. simpl.
  rewrite Hgt. reflexivity.
Qed.

(** Inside the guard, on an ordered time array, the call reads the
    velocity at the first index of the largest sample not exceeding [t]. *)
Lemma call_in_range (self : VolumeProfile) (t : num) :
  nondecreasing (time self) = true -> in_range (time self) t ->
  exists prev i,
    largest_not_exceeding (time self) t prev /\
    first_index_of (time self) prev i /\
    __call__ self t = getitem (velocity self) i.
Proof.
  intros Hsorted [t_first [t_last [Hfirst [Hlast [Hge Hle]]]]].
  assert (Hex : exists x, In x (time self) /\ leb x t = true).
  { exists t_first. split; [|exact Hge].
    apply getitem_Ok in Hfirst. apply (nth_error_In _ _ Hfirst). }
  destruct (prev_time_point_spec _ t Hsorted Hex)
    as [prev [Hprev [Hin [Hpt Hmax]]]].
  destruct (index_spec _ prev Hin (leb_refl_l _ _ Hpt))
    as [i [ti [Hidx [Hti [Heq Hfst]]]]].
  exists prev, i. split; [|split].
  - split; [exact Hin | split; [exact Hpt | exact Hmax]].
  - split; [exists ti; split; assumption | exact Hfst].
  - unfold __call__. rewrite Hlast. simpl. rewrite Hle, Hfirst. simpl.
    unfold geb. rewrite Hge, Hprev. simpl. rewrite Hidx. reflexivity.
Qed.

(** With strictly increasing samples the index is that of the largest
    sample itself. *)
Lemma call_in_range_strict (self : VolumeProfile) (t : num) :
  strictly_increasing (time self) = true -> in_range (time self) t ->
  exists i ti,
    nth_error (time self) i = Some ti /\
    largest_not_exceeding (time self) t ti /\
    __call__ self t = getitem (velocity self) i.
Proof.
  intros Hstrict Hrange.
  destruct (call_in_range self t (strictly_increasing_nondecreasing _ Hstrict)
                          Hrange)
    as [prev [i [Hlargest [[[ti [Hti Heq]] _] Hcall]]]].
  exists i, ti. split; [exact Hti|]. split; [|exact Hcall].
  destruct Hlargest as [Hin Hrest].
  destruct (In_nth_error _ _ Hin) as [k Hk].
  pose proof (strictly_increasing_eqb_index _ i k _ _ Hstrict Hti Hk Heq) as Hik.
  subst k. rewrite Hti in Hk. inversion Hk; subst ti.
  split; assumption.
Qed.

(** The ends of an ordered array bound each of its samples. *)
Lemma sample_in_range (a : list num) (i : nat) (ti : num) :
  nondecreasing a = true -> nth_error a i = Some ti -> in_range a ti.
Proof.
  intros Hsorted Hti.
  assert (Hne : a <> []) by (destruct a; [destruct i; discriminate | discriminate]).
  destruct a as [|t_first a']; [contradiction|].
  remember (t_first :: a') as a eqn:Ea.
  destruct (getitem_last a) as [t_last|e] eqn:Hlast;
    [|subst a; discriminate].
  exists t_first, t_last. split; [subst a; reflexivity|].
  split; [exact Hlast|].
  pose proof (proj1 (getitem_last_nth a t_last) Hlast) as [_ Hn].
  assert (Hi : i < length a) by (apply nth_error_Some; congruence).
  split.
  - apply (nondecreasing_nth a Hsorted 0 i); [lia | subst a; reflexivity | exact Hti].
  - apply (nondecreasing_nth a Hsorted i (length a - 1)); [lia | exact Hti | exact Hn].
Qed.
End CallFacts.

Section StrictLookup.
Context {K : Scalar} {L : ScalarLaws K}.

(** A query that compares equal to a sample of a strictly increasing
    array reads the velocity at that sample's index. *)
Lemma call_at_index (self : VolumeProfile) (t : num) (i : nat) (ti : num) :
  strictly_increasing (time self) = true ->
  nth_error (time self) i = Some ti ->
  leb ti t = true -> leb t ti = true ->
  in_range (time self) t /\ __call__ self t = getitem (velocity self) i.
Proof.
  intros Hstrict Hti Hle Hge.
  pose proof (strictly_increasing_nondecreasing _ Hstrict) as Hsorted.
  assert (Hrange : in_range (time self) t).
  { destruct (sample_in_range _ i ti Hsorted Hti)
      as [t_first [t_last [Hf [Hl [H1 H2]]]]].
    exists t_first, t_last. repeat split; try assumption.
    - apply (leb_trans _ _ _ H1 Hle).
    - apply (leb_trans _ _ _ Hge H2). }
  split; [exact Hrange|].
  destruct (call_in_range_strict self t Hstrict Hrange)
    as [i' [ti' [Hti' [[Hin [Hle' Hmax]] Hcall]]]].
  assert (Heq : eqb ti' ti = true).
  { apply eqb_true. split.
    - apply (leb_trans _ _ _ Hle' Hge).
    - apply Hmax; [apply (nth_error_In _ _ Hti) | exact Hle]. }
  rewrite (strictly_increasing_eqb_index _ i' i _ _ Hstrict Hti' Hti Heq) in Hcall.
  exact Hcall.
Qed.

Lemma strictly_increasing_is_number (a : list num) (x : num) :
  strictly_increasing a = true -> In x a -> leb x x = true.
Proof.
  intros H. apply nondecreasing_is_number.
  apply strictly_increasing_nondecreasing, H.
Qed.
End StrictLookup.

(** On inputs of one length [n >= 1] the constructor raises nothing. *)
Lemma init_total {K : Scalar} (ts vs : list num) :
  length ts = length vs -> 1 <= length vs ->
  exists p v0, __init__ ts vs = Ok p /\ getitem vs 0 = Ok v0.
Proof.
  intros Hlen Hn. destruct vs as [|v0 vs']; [simpl in Hn; lia|].
  eexists. exists v0. split; [|reflexivity].
  apply (init_equal_length ts (v0 :: vs') v0 Hlen). reflexivity.
Qed.

(** Inside the guard every index of the call is in bounds. *)
Lemma call_ok_in_range {K : Scalar} {L : ScalarLaws K}
      (ts vs : list num) (p : VolumeProfile) (t : num) :
  length ts = length vs -> __init__ ts vs = Ok p ->
  nondecreasing ts = true -> in_range ts t ->
  exists v, __call__ p t = Ok v.
Proof.
  intros Hlen Hp Hsorted Hrange.
  pose proof (init_time _ _ _ Hp) as Htime.
  pose proof (init_velocity_length _ _ _ Hlen Hp) as Hvlen.
  rewrite <- Htime in Hsorted, Hrange.
  destruct (call_in_range p t Hsorted Hrange)
    as [prev [i [_ [[[ti [Hti _]] _] Hcall]]]].
  rewrite Htime in Hti.
  assert (Hi : i < length (velocity p)).
  { rewrite Hvlen. apply nth_error_Some. congruence. }
  destruct (nth_error (velocity p) i) as [v|] eqn:Hv;
    [|apply nth_error_Some in Hi; contradiction].
  exists v. rewrite Hcall. unfold getitem. rewrite Hv. reflexivity.
Qed.

(** ** IEEE-754 binary64 satisfies the laws *)

(** The primitive operations are specified by the standard library on
    [spec_float]; the laws are proved there and carried over. *)

Section Binary64.
Local Open Scope Z_scope.

(** *** Comparisons *)

Ltac sf_cases :=
  repeat match goal with
  | |- context [Z.compare ?a ?b] => destruct (Z.compare_spec a b)
  | H : context [Z.compare ?a ?b] |- _ => destruct (Z.compare_spec a b)
  | |- context [Pos.compare ?a ?b] => destruct (Pos.compare_spec a b)
  | H : context [Pos.compare ?a ?b] |- _ => destruct (Pos.compare_spec a b)
  end.

Ltac sf_order :=
  unfold SFleb, SFltb, SFeqb, SFcompare;
  repeat match goal with
  | x : spec_float |- _ => destruct x
  | s : bool |- _ => destruct s
  end;
  change (Pos.compare_cont Eq) with Pos.compare;
  simpl; intros;
  try reflexivity; try discriminate; try (left; reflexivity); try (right; reflexivity);
  sf_cases; simpl in *;
  try reflexivity; try discriminate; try (left; reflexivity); try (right; reflexivity);
  try (exfalso; lia).

Lemma SFleb_trans x y z : SFleb x y = true -> SFleb y z = true -> SFleb x z = true.
Proof. sf_order. Qed.

Lemma SFleb_refl_l x y : SFleb x y = true -> SFleb x x = true.
Proof. sf_order. Qed.

Lemma SFleb_refl_r x y : SFleb x y = true -> SFleb y y = true.
Proof. sf_order. Qed.

Lemma SFleb_total x y : SFleb x x = true -> SFleb y y = true -> SFleb x y = true \/ SFleb y x = true.
Proof. sf_order. Qed.

Lemma SFltb_leb x y : SFltb x y = (SFleb x y && negb (SFleb y x))%bool.
Proof. sf_order. Qed.

Lemma SFeqb_leb x y : SFeqb x y = (SFleb x y && SFleb y x)%bool.
Proof. sf_order. Qed.

(** *** A finite nonzero number divided by itself *)

Lemma Prim2SF_zero : Prim2SF PrimFloat.zero = S754_zero false.
Proof. reflexivity. Qed.

Lemma Prim2SF_one : Prim2SF PrimFloat.one = S754_finite false 4503599627370496 (-52).
Proof. reflexivity. Qed.

Lemma div_eucl_div_mod a b : Z.div_eucl a b = (a / b, a mod b).
Proof. unfold Z.div, Z.modulo. destruct (Z.div_eucl a b); reflexivity. Qed.

Lemma SF64div_self s m e :
  SF64div (S754_finite s m e) (S754_finite s m e) = S754_finite false 4503599627370496 (-52).
Proof.
  unfold SF64div, SFdiv, SFdiv_core_binary.
  rewrite Z.sub_diag, Z.sub_diag.
  change (Z.min (fexp prec emax 0) 0) with (-53).
  change (0 - -53) with 53.
  cbv beta iota zeta.
  rewrite Z.shiftl_mul_pow2 by lia.
  rewrite div_eucl_div_mod.
  rewrite (Z.mul_comm (Z.pos m)). rewrite Z.div_mul by lia. rewrite Z.mod_mul by lia.
  rewrite xorb_nilpotent.
  replace (new_location (Z.pos m) 0) with loc_Exact.
  - reflexivity.
  - unfold new_location. destruct (Z.even (Z.pos m)); reflexivity.
Qed.

Lemma float_div_self x :
  PrimFloat.is_finite x = true -> PrimFloat.eqb x PrimFloat.zero = false ->
  PrimFloat.eqb (x / x) PrimFloat.one = true.
Proof.
  unfold PrimFloat.is_finite, is_nan, is_infinity.
  rewrite !eqb_spec, abs_spec, div_spec, Prim2SF_zero, Prim2SF_one.
  change (Prim2SF infinity) with (S754_infinity false).
  intros Hfin Hnz.
  destruct (Prim2SF x) as [s|s| |s m e].
  - discriminate Hnz.
  - destruct s; discriminate Hfin.
  - discriminate Hfin.
  - rewrite SF64div_self. reflexivity.
Qed.

(** *** The difference of two numbers in strict order is not zero *)

Lemma digits2_pos_lower (p : positive) :
  2 ^ Z.pos (digits2_pos p) <= 2 * Z.pos p.
Proof.
  induction p as [p IH|p IH|]; simpl digits2_pos.
  - rewrite Pos2Z.inj_succ, Z.pow_succ_r by lia. lia.
  - rewrite Pos2Z.inj_succ, Z.pow_succ_r by lia. lia.
  - simpl. lia.
Qed.

Lemma digits2_pos_shift (m d : positive) :
  digits2_pos (Pos.iter xO m d) = (digits2_pos m + d)%positive.
Proof.
  induction d as [|d IH] using Pos.peano_ind.
  - simpl. lia.
  - rewrite Pos.iter_succ. simpl. rewrite IH. lia.
Qed.

Lemma shr_1_m (r : shr_record) :
  0 <= shr_m r -> shr_m (shr_1 r) = shr_m r / 2.
Proof.
  destruct r as [m r s]. cbn [shr_m shr_1]. intros Hm.
  destruct m as [|[p|p|]|p]; cbn [shr_m]; try reflexivity; try lia.
  - apply Z.div_unique with 1; lia.
  - apply Z.div_unique with 0; lia.
Qed.

Lemma pow2_xO (p : positive) : 2 ^ Z.pos p~0 = 2 ^ Z.pos p * 2 ^ Z.pos p.
Proof. rewrite <- Z.pow_add_r by lia. f_equal. lia. Qed.

Lemma pow2_xI (p : positive) : 2 ^ Z.pos p~1 = 2 * (2 ^ Z.pos p * 2 ^ Z.pos p).
Proof.
  rewrite <- Z.pow_add_r, <- Z.pow_succ_r by lia. f_equal. lia.
Qed.

Lemma iter_shr_1_m (p : positive) :
  forall r, 0 <= shr_m r ->
            shr_m (iter_pos shr_1 p r) = shr_m r / 2 ^ Z.pos p.
Proof.
  assert (Hpow : forall q, 0 < 2 ^ Z.pos q) by (intros q; apply Z.pow_pos_nonneg; lia).
  induction p as [p IH|p IH|]; intros r Hr; simpl iter_pos.
  - assert (H1 : 0 <= shr_m (shr_1 r)) by (rewrite shr_1_m by lia; apply Z.div_pos; lia).
    assert (H2 : 0 <= shr_m (iter_pos shr_1 p (shr_1 r))).
    { rewrite IH by lia. apply Z.div_pos; [lia | apply Hpow]. }
    rewrite IH by lia. rewrite IH by lia. rewrite shr_1_m by lia.
    pose proof (Hpow p).
    rewrite !Z.div_div by lia.
    rewrite pow2_xI. reflexivity.
  - assert (H2 : 0 <= shr_m (iter_pos shr_1 p r)).
    { rewrite IH by lia. apply Z.div_pos; [lia | apply Hpow]. }
    rewrite IH by lia. rewrite IH by lia.
    pose proof (Hpow p).
    rewrite !Z.div_div by lia.
    rewrite pow2_xO. reflexivity.
  - rewrite shr_1_m by lia. reflexivity.
Qed.

Lemma shr_record_of_loc_m m l : shr_m (shr_record_of_loc m l) = m.
Proof. destruct l as [|[]]; reflexivity. Qed.

(** Shifting a positive mantissa to its canonical exponent leaves it
    positive, provided the exponent is not below [emin]. *)
Lemma shr_fexp_pos (m : positive) (e : Z) (l : location) :
  emin <= e ->
  0 < shr_m (fst (shr_fexp prec emax (Z.pos m) e l)) /\
  emin <= snd (shr_fexp prec emax (Z.pos m) e l).
Proof.
  intros He. unfold shr_fexp, shr. simpl Zdigits2.
  pose proof (digits2_pos_lower m) as Hd.
  set (d := Z.pos (digits2_pos m)) in *.
  assert (Hdpos : 0 < d) by (unfold d; lia).
  unfold fexp, SpecFloat.emin, prec, emax in *.
  destruct (Z.max (d + e - 53) (3 - 1024 - 53) - e) as [|n|n] eqn:Hn; simpl.
  - rewrite shr_record_of_loc_m. lia.
  - rewrite iter_shr_1_m by (rewrite shr_record_of_loc_m; lia).
    rewrite shr_record_of_loc_m. split; [|lia].
    apply Z.div_str_pos. split; [apply Z.pow_pos_nonneg; lia|].
    assert (Hnd : Z.pos n <= d - 1) by lia.
    assert (Hpow : 2 ^ Z.pos n <= 2 ^ (d - 1)) by (apply Z.pow_le_mono_r; lia).
    assert (Hd' : 2 ^ d = 2 * 2 ^ (d - 1)).
    { replace d with (Z.succ (d - 1)) at 1 by lia. apply Z.pow_succ_r. lia. }
    lia.
  - rewrite shr_record_of_loc_m. lia.
Qed.

Lemma round_nearest_even_pos m l : 0 < m -> 0 < round_nearest_even m l.
Proof.
  intros Hm. destruct l as [|[]]; simpl; try lia.
  destruct (Z.even m); lia.
Qed.

Lemma binary_round_aux_nonzero s (m : positive) e l :
  emin <= e -> SF_is_zero (binary_round_aux prec emax s (Z.pos m) e l) = false.
Proof.
  intros He. unfold binary_round_aux.
  destruct (shr_fexp_pos m e l He) as [H1 H2].
  destruct (shr_fexp prec emax (Z.pos m) e l) as [mrs' e']. simpl in H1, H2.
  pose proof (round_nearest_even_pos (shr_m mrs') (loc_of_shr_record mrs') H1) as Hr.
  destruct (round_nearest_even (shr_m mrs') (loc_of_shr_record mrs')) as [|m1|m1]; try lia.
  destruct (shr_fexp_pos m1 e' loc_Exact H2) as [H3 H4].
  destruct (shr_fexp prec emax (Z.pos m1) e' loc_Exact) as [mrs'' e'']. simpl in H3, H4.
  destruct (shr_m mrs'') as [|m2|m2]; try lia.
  destruct (e'' <=? emax - prec); reflexivity.
Qed.

Lemma binary_round_nonzero s (m : positive) e :
  emin <= e -> SF_is_zero (binary_round prec emax s m e) = false.
Proof.
  intros He. unfold binary_round, shl_align.
  destruct (fexp prec emax (Z.pos (digits2_pos m) + e) - e) eqn:Hf;
    apply binary_round_aux_nonzero; try lia.
  unfold fexp, SpecFloat.emin in *. lia.
Qed.

Lemma binary_normalize_nonzero m e sz :
  m <> 0 -> emin <= e -> SF_is_zero (binary_normalize prec emax m e sz) = false.
Proof.
  intros Hm He. destruct m as [|m|m]; [contradiction| |]; simpl;
    apply binary_round_nonzero; exact He.
Qed.

Lemma valid_emin s m e :
  valid_binary (S754_finite s m e) = true ->
  fexp prec emax (Z.pos (digits2_pos m) + e) = e /\ emin <= e.
Proof.
  unfold SpecFloat.valid_binary, bounded, canonical_mantissa.
  rewrite andb_true_iff, Z.eqb_eq. intros [Hc _]. split; [exact Hc|].
  unfold fexp, SpecFloat.emin in *. lia.
Qed.

(** Two canonical mantissas aligned to the smaller exponent are equal only
    if the numbers have the same representation. *)
Lemma shl_align_differ m1 e1 m2 e2 :
  fexp prec emax (Z.pos (digits2_pos m1) + e1) = e1 ->
  fexp prec emax (Z.pos (digits2_pos m2) + e2) = e2 ->
  e1 <> e2 \/ m1 <> m2 ->
  fst (shl_align m1 e1 (Z.min e1 e2)) <> fst (shl_align m2 e2 (Z.min e1 e2)).
Proof.
  intros H1 H2 Hne. unfold shl_align.
  destruct (Z.min e1 e2 - e1) as [|d1|d1] eqn:Hd1;
    destruct (Z.min e1 e2 - e2) as [|d2|d2] eqn:Hd2; simpl; try lia.
  - intros ->. rewrite digits2_pos_shift in H1.
    rewrite Pos2Z.inj_add in H1.
    replace (Z.pos (digits2_pos m2) + Z.pos d2 + e1)
      with (Z.pos (digits2_pos m2) + e2) in H1 by lia. lia.
  - intros <-. rewrite digits2_pos_shift in H2.
    rewrite Pos2Z.inj_add in H2.
    replace (Z.pos (digits2_pos m1) + Z.pos d1 + e2)
      with (Z.pos (digits2_pos m1) + e1) in H2 by lia. lia.
Qed.

Lemma SFltb_finite_differ s m1 e1 m2 e2 :
  SFltb (S754_finite s m1 e1) (S754_finite s m2 e2) = true ->
  e1 <> e2 \/ m1 <> m2.
Proof.
  intros H. destruct (Z.eq_dec e1 e2) as [He|He]; [|left; exact He].
  right. intros Hm. subst. unfold SFltb, SFcompare in H.
  change (Pos.compare_cont Eq) with Pos.compare in H.
  rewrite Z.compare_refl, Pos.compare_refl in H.
  destruct s; discriminate.
Qed.

Lemma SF64sub_lt_nonzero (X Y : spec_float) :
  valid_binary X = true -> valid_binary Y = true ->
  SFltb X Y = true -> SF_is_zero (SF64sub Y X) = false.
Proof.
  intros HX HY Hlt.
  destruct X as [sx|sx| |sx mx ex]; destruct Y as [sy|sy| |sy my ey];
    try discriminate Hlt; try reflexivity;
    try (destruct sx; destruct sy; try discriminate Hlt; reflexivity).
  destruct (valid_emin _ _ _ HX) as [HcX HeX].
  destruct (valid_emin _ _ _ HY) as [HcY HeY].
  unfold SF64sub, SFsub. apply binary_normalize_nonzero; [|lia].
  destruct sx, sy; unfold cond_Zopp; try lia; try discriminate Hlt.
  - pose proof (shl_align_differ my ey mx ex HcY HcX) as Hd.
    destruct (SFltb_finite_differ _ _ _ _ _ Hlt) as [H|H];
      (assert (Hne : fst (shl_align my ey (Z.min ey ex)) <>
                     fst (shl_align mx ex (Z.min ey ex)))
        by (apply Hd; auto)); lia.
  - pose proof (shl_align_differ my ey mx ex HcY HcX) as Hd.
    destruct (SFltb_finite_differ _ _ _ _ _ Hlt) as [H|H];
      (assert (Hne : fst (shl_align my ey (Z.min ey ex)) <>
                     fst (shl_align mx ex (Z.min ey ex)))
        by (apply Hd; auto)); lia.
Qed.

Lemma float_sub_lt_nonzero x y :
  PrimFloat.ltb x y = true ->
  PrimFloat.eqb (PrimFloat.sub y x) PrimFloat.zero = false.
Proof.
  rewrite ltb_spec, eqb_spec, sub_spec, Prim2SF_zero. intros H.
  pose proof (SF64sub_lt_nonzero _ _ (Prim2SF_valid x) (Prim2SF_valid y) H) as Hz.
  destruct (SF64sub (Prim2SF y) (Prim2SF x)) as [s|s| |s m e];
    try discriminate Hz; try reflexivity; destruct s; reflexivity.
Qed.
End Binary64.

#[export] Instance binary64_laws : ScalarLaws binary64.
Proof.
  split; simpl; intros *; rewrite ?leb_spec, ?ltb_spec, ?eqb_spec.
  - apply SFleb_trans.
  - apply SFleb_refl_l.
  - apply SFleb_refl_r.
  - apply SFleb_total.
  - apply SFltb_leb.
  - apply SFeqb_leb.
Qed.

#[export] Instance binary64_arith : ArithLaws binary64.
Proof.
  split; simpl.
  - apply float_div_self.
  - apply float_sub_lt_nonzero.
Qed.

(** ** Exact rationals satisfy the laws *)

#[export] Instance exact_laws : ScalarLaws exact.
Proof.
  split; simpl; intros *.
  - rewrite !Qle_bool_iff. apply Qle_trans.
  - intros _. apply Qle_bool_iff, Qle_refl.
  - intros _. apply Qle_bool_iff, Qle_refl.
  - intros _ _. rewrite !Qle_bool_iff.
    destruct (Qlt_le_dec x y) as [H|H]; [left; apply Qlt_le_weak, H | right; exact H].
  - destruct (Qle_bool y x) eqn:Hyx; simpl; [symmetry; apply andb_false_r|].
    rewrite andb_true_r. symmetry. apply Qle_bool_iff.
    destruct (Qlt_le_dec x y) as [H|H]; [apply Qlt_le_weak, H|].
    apply Qle_bool_iff in H. congruence.
  - destruct (Qeq_bool x y) eqn:Heq.
    + apply Qeq_bool_iff in Heq. symmetry. apply andb_true_iff.
      rewrite !Qle_bool_iff. rewrite Heq. split; apply Qle_refl.
    + destruct (Qle_bool x y) eqn:Hxy; [|reflexivity].
      destruct (Qle_bool y x) eqn:Hyx; [|reflexivity].
      apply Qle_bool_iff in Hxy, Hyx.
      rewrite <- Heq. simpl. apply Qeq_bool_iff, Qle_antisym; assumption.
Qed.

#[export] Instance exact_arith : ArithLaws exact.
Proof.
  split; simpl.
  - intros x _ Hx. apply Qeq_bool_iff.
    assert (Hn : ~ (x == 0)%Q)
      by (intros H; apply Qeq_bool_iff in H; congruence).
    field. exact Hn.
  - intros x y Hlt. apply negb_true_iff in Hlt.
    destruct (Qeq_bool (y - x) 0) eqn:Heq; [|reflexivity].
    apply Qeq_bool_iff in Heq.
    assert (Hle : (y <= x)%Q) by lra.
    apply Qle_bool_iff in Hle. congruence.
Qed.

Lemma quotient_combine {K : Scalar} (a b : list num) :
  map quotient (combine a b) = divide_elementwise a b.
Proof.
  revert b. induction a as [|x a IH]; intros [|y b]; simpl; try reflexivity.
  rewrite IH. reflexivity.
Qed.

Lemma snd_combine {A B : Type} (a : list A) (b : list B) :
  length a = length b -> map snd (combine a b) = b.
Proof.
  revert b. induction a as [|x a IH]; intros [|y b] H; simpl in *;
    try discriminate; try reflexivity.
  f_equal. apply IH. lia.
Qed.

(** The listed divisions are the ones that produce the stored volume and
    the forward differences, and their divisors are [volume[0]] and the
    time deltas. *)
Lemma init_divisions_spec {K : Scalar} (ts vs : list num) (p : VolumeProfile) :
  length ts = length vs -> __init__ ts vs = Ok p ->
  exists v0 ops fd,
    getitem vs 0 = Ok v0 /\
    init_divisions ts vs = Ok ops /\
    velocity p = fd ++ [zero] /\
    map quotient ops = volume p ++ fd /\
    map snd ops = map (fun _ => v0) vs ++ np_diff ts.
Proof.
  intros Hlen Hp. destruct (init_inv _ _ _ Hlen Hp) as [v0 [Hv0 ->]].
  exists v0. unfold init_divisions. rewrite Hv0. cbn [bind velocity volume].
  eexists. eexists. split; [reflexivity|]. split; [reflexivity|].
  split; [reflexivity|]. split.
  - rewrite map_app, map_map, quotient_combine. reflexivity.
  - rewrite map_app, map_map. f_equal. apply snd_combine.
    rewrite !np_diff_length. unfold divide_scalar. rewrite length_map. lia.
Qed.

Lemma time_deltas_nonzero
      {K : Scalar} {L : ScalarLaws K} {A : ArithLaws K} (ts : list num) :
  strictly_increasing ts = true -> forallb nonzero (np_diff ts) = true.
Proof.
  induction ts as [|x [|y ts] IH]; intros Hs; try reflexivity.
  destruct (strictly_increasing_cons _ _ Hs) as [Hs' [_ Hall]].
  change (np_diff (x :: y :: ts)) with (sub y x :: np_diff (y :: ts)).
  cbn [forallb]. rewrite (IH Hs'), andb_true_r.
  unfold nonzero. rewrite sub_lt_nonzero; [reflexivity|].
  apply Hall. left; reflexivity.
Qed.

Section ExactArithmetic.
Local Open Scope Q_scope.

Lemma all_equal_positive_exact (l : list Q) :
  all_equal_positive (K := exact) l = true <->
  match l with
  | [] => True
  | c :: l' => 0 < c /\ Forall (fun x => x == c) l'
  end.
Proof.
  destruct l as [|c l']; simpl; [tauto|].
  rewrite andb_true_iff, negb_true_iff, forallb_forall, Forall_forall.
  split; intros [Hc Hall]; split.
  - apply Qnot_le_lt. intros H. apply Qle_bool_iff in H. congruence.
  - intros x Hx. apply Qeq_bool_iff, Hall, Hx.
  - destruct (Qle_bool c 0) eqn:E; [|reflexivity].
    apply Qle_bool_iff in E. lra.
  - intros x Hx. apply Qeq_bool_iff, Hall, Hx.
Qed.

Lemma constant_steps (a : list Q) (c : Q) :
  all_equal_positive (K := exact) (np_diff (K := exact) a) = true ->
  nth_error (np_diff (K := exact) a) 0%nat = Some c ->
  0 < c /\ Forall (fun x => x == c) (np_diff (K := exact) a).
Proof.
  rewrite all_equal_positive_exact.
  destruct (np_diff (K := exact) a) as [|c' l']; [discriminate|].
  intros [Hc Hall] Hnth. inversion Hnth; subst c'.
  split; [exact Hc|]. constructor; [reflexivity | exact Hall].
Qed.

(** With time steps all [h] and volume steps all [d], every forward
    difference of the normalised volume over its time delta is
    [d / v0 / h]. *)
Lemma forward_differences_constant (v0 h d : Q) :
  ~ v0 == 0 -> ~ h == 0 ->
  forall ts vs : list Q,
    Forall (fun x => x == h) (np_diff (K := exact) ts) ->
    Forall (fun x => x == d) (np_diff (K := exact) vs) ->
    Forall (fun x => x == d / v0 / h)
           (divide_elementwise (K := exact)
              (np_diff (K := exact) (divide_scalar (K := exact) vs v0))
              (np_diff (K := exact) ts)).
Proof.
  intros Hv0 Hh. induction ts as [|t1 [|t2 ts] IH]; intros vs Hts Hvs.
  - destruct vs as [|a1 [|a2 vs]]; constructor.
  - destruct vs as [|a1 [|a2 vs]]; constructor.
  - destruct vs as [|a1 [|a2 vs]]; try constructor.
    + change (np_diff (K := exact) (t1 :: t2 :: ts))
        with (t2 - t1 :: np_diff (K := exact) (t2 :: ts)) in Hts.
      change (np_diff (K := exact) (a1 :: a2 :: vs))
        with (a2 - a1 :: np_diff (K := exact) (a2 :: vs)) in Hvs.
      inversion Hts as [|? ? Hh1 _]; inversion Hvs as [|? ? Hd1 _]; subst.
      simpl. rewrite <- Hh1, <- Hd1. field. split; [exact Hv0 | lra].
    + change (np_diff (K := exact) (t1 :: t2 :: ts))
        with (t2 - t1 :: np_diff (K := exact) (t2 :: ts)) in Hts.
      change (np_diff (K := exact) (a1 :: a2 :: vs))
        with (a2 - a1 :: np_diff (K := exact) (a2 :: vs)) in Hvs.
      inversion Hts; inversion Hvs; subst.
      apply (IH (a2 :: vs)); assumption.
Qed.
End ExactArithmetic.

(** * The claims *)

(** The profiles of the claims are built by the constructor from a time and
    a volume sequence of one length, as the data model has them.  The
    constructor itself does not check the lengths: against two time samples
    a single volume is broadcast, the stored velocity is then shorter than
    the stored time, and a call inside the range raises [IndexError]. *)
Lemma shorter_volume_is_broadcast :
  exists p,
    __init__ (K := binary64) [0; 1]%float [5]%float = Ok p /\
    velocity p = [0]%float /\
    __call__ p 1%float = Raise IndexError.
Proof. eexists. split; [reflexivity|]. split; reflexivity. Qed.

(** C1.  For a profile constructed from strictly increasing time samples
    (and as many volume samples) and a query [t] with [time[0] <= t <=
    time[-1]], the call returns the precomputed velocity stored at the
    index of the largest sample time not exceeding [t]; the next sample,
    when there is one, is strictly after [t], so the profile is a step
    function and nothing is interpolated. *)
Theorem C1_call_is_step_function
        {K : Scalar} {L : ScalarLaws K}
        (ts vs : list num) (p : VolumeProfile) (t : num) :
  length ts = length vs ->
  __init__ ts vs = Ok p ->
  strictly_increasing ts = true ->
  in_range ts t ->
  exists i ti v,
    nth_error ts i = Some ti /\
    largest_not_exceeding ts t ti /\
    (forall t_next, nth_error ts (S i) = Some t_next -> ltb t t_next = true) /\
    nth_error (velocity p) i = Some v /\
    __call__ p t = Ok v.
Proof.
  intros Hlen Hp Hstrict Hrange.
  pose proof (init_time _ _ _ Hp) as Htime.
  pose proof (init_velocity_length _ _ _ Hlen Hp) as Hvlen.
  rewrite <- Htime in Hstrict, Hrange.
  destruct (call_in_range_strict p t Hstrict Hrange)
    as [i [ti [Hti [Hlargest Hcall]]]].
  rewrite Htime in *.
  assert (Hi : i < length (velocity p)).
  { rewrite Hvlen. apply nth_error_Some. congruence. }
  destruct (nth_error (velocity p) i) as [v|] eqn:Hv;
    [|apply nth_error_Some in Hi; contradiction].
  exists i, ti, v. split; [exact Hti|]. split; [exact Hlargest|].
  split; [|split; [exact Hv|]].
  - intros t_next Hnext.
    destruct Hlargest as [Hin [Hle Hmax]].
    rewrite <- Htime in Hstrict.
    pose proof (strictly_increasing_nth _ Hstrict i (S i) ti t_next
                  (Nat.lt_succ_diag_r i)) as Hlt.
    rewrite Htime in Hlt. specialize (Hlt Hti Hnext).
    apply ltb_true in Hlt. destruct Hlt as [Hlt1 Hlt2].
    assert (Hnot : leb t_next t = false).
    { destruct (leb t_next t) eqn:E; [|reflexivity].
      rewrite (Hmax t_next (nth_error_In _ _ Hnext) E) in Hlt2. discriminate. }
    apply ltb_true. split; [|exact Hnot].
    destruct (leb_total t t_next (leb_refl_r _ _ Hle) (leb_refl_r _ _ Hlt1))
      as [H|H]; [exact H | congruence].
  - rewrite Hcall. unfold getitem. rewrite Hv. reflexivity.
Qed.

Lemma C1_call_is_step_function_witness :
  exists i ti v,
    nth_error sample_time i = Some ti /\
    largest_not_exceeding (K := binary64) sample_time 0.5%float ti /\
    (forall t_next, nth_error sample_time (S i) = Some t_next ->
                    ltb (Scalar := binary64) 0.5%float t_next = true) /\
    nth_error (velocity sample_profile) i = Some v /\
    __call__ sample_profile 0.5%float = Ok v.
Proof.
  apply (C1_call_is_step_function (K := binary64) sample_time sample_volume).
  - reflexivity.
  - reflexivity.
  - reflexivity.
  - exists 0%float, 2%float. repeat split; reflexivity.
Defined.

(** C2.  For every profile and every query strictly before the first time
    sample or strictly after the last one, the call returns 0. *)
Theorem C2_call_outside_range_is_zero
        {K : Scalar} {L : ScalarLaws K} (self : VolumeProfile) (t : num) :
  (exists t_first, getitem (time self) 0 = Ok t_first /\ ltb t t_first = true) \/
  (exists t_last, getitem_last (time self) = Ok t_last /\ ltb t_last t = true) ->
  __call__ self t = Ok zero.
Proof.
  intros [[t_first [Hfirst Hlt]] | [t_last [Hlast Hlt]]];
    apply ltb_true in Hlt; destruct Hlt as [_ Hlt].
  - apply (call_below self t t_first Hfirst Hlt).
  - apply (call_above self t t_last Hlast Hlt).
Qed.

Lemma C2_call_outside_range_is_zero_witness :
  __call__ sample_profile (-1)%float = Ok 0%float /\
  __call__ sample_profile 2.5%float = Ok 0%float.
Proof.
  split.
  - apply (C2_call_outside_range_is_zero (K := binary64)).
    left. exists 0%float. split; reflexivity.
  - apply (C2_call_outside_range_is_zero (K := binary64)).
    right. exists 2%float. split; reflexivity.
Defined.

(** C3.  For a profile constructed from strictly increasing time samples
    (and as many volume samples) and every index [i], the call at exactly
    [time[i]] returns [velocity[i]]. *)
Theorem C3_call_at_sample_time
        {K : Scalar} {L : ScalarLaws K}
        (ts vs : list num) (p : VolumeProfile) (i : nat) (ti : num) :
  length ts = length vs ->
  __init__ ts vs = Ok p ->
  strictly_increasing ts = true ->
  nth_error ts i = Some ti ->
  exists v, nth_error (velocity p) i = Some v /\ __call__ p ti = Ok v.
Proof.
  intros Hlen Hp Hstrict Hti.
  pose proof (init_time _ _ _ Hp) as Htime.
  pose proof (init_velocity_length _ _ _ Hlen Hp) as Hvlen.
  assert (Hi : i < length (velocity p)).
  { rewrite Hvlen. apply nth_error_Some. congruence. }
  destruct (nth_error (velocity p) i) as [v|] eqn:Hv;
    [|apply nth_error_Some in Hi; contradiction].
  exists v. split; [reflexivity|].
  pose proof (strictly_increasing_is_number ts ti Hstrict
                (nth_error_In _ _ Hti)) as Hnum.
  rewrite <- Htime in Hstrict, Hti.
  destruct (call_at_index p ti i ti Hstrict Hti Hnum Hnum) as [_ Hcall].
  rewrite Hcall. unfold getitem. rewrite Hv. reflexivity.
Qed.

Lemma C3_call_at_sample_time_witness :
  exists v, nth_error (velocity sample_profile) 1 = Some v /\
            __call__ sample_profile 1%float = Ok v.
Proof.
  apply (C3_call_at_sample_time (K := binary64) sample_time sample_volume);
    reflexivity.
Defined.

(** C4.  From time and volume sequences of one length [n >= 1] the
    constructor stores a velocity sequence of length [n]: the [n-1] forward
    differences of the normalised volume over the time deltas, followed by
    one zero.  Its length is that of the stored time and volume. *)
Theorem C4_velocity_length
        {K : Scalar} (ts vs : list num) (n : nat) :
  length ts = n -> length vs = n -> 1 <= n ->
  exists p v0 fd,
    __init__ ts vs = Ok p /\
    getitem vs 0 = Ok v0 /\
    velocity p = fd ++ [zero] /\
    forward_differences ts vs v0 fd /\
    length fd = n - 1 /\
    length (velocity p) = n /\
    length (time p) = n /\
    length (volume p) = n.
Proof.
  intros Hts Hvs Hn.
  assert (Hlen : length ts = length vs) by congruence.
  destruct vs as [|v0 vs']; [simpl in Hvs; lia|].
  remember (v0 :: vs') as vs eqn:Evs.
  assert (Hv0 : getitem vs 0 = Ok v0) by (subst vs; reflexivity).
  pose proof (forward_differences_init ts vs v0 Hlen) as Hfd.
  eexists. exists v0. eexists.
  split; [apply (init_equal_length ts vs v0 Hlen Hv0)|].
  split; [exact Hv0|]. simpl.
  split; [reflexivity|]. split; [exact Hfd|].
  destruct Hfd as [Hfdlen _].
  split; [lia|]. split; [rewrite length_app; simpl; lia|].
  split; [exact Hts|]. unfold divide_scalar. rewrite length_map. exact Hvs.
Qed.

Lemma C4_velocity_length_witness :
  exists p v0 fd,
    __init__ sample_time sample_volume = Ok p /\
    getitem sample_volume 0 = Ok v0 /\
    velocity p = fd ++ [zero] /\
    forward_differences sample_time sample_volume v0 fd /\
    length fd = 3 - 1 /\
    length (velocity p) = 3 /\
    length (time p) = 3 /\
    length (volume p) = 3.
Proof.
  apply (C4_velocity_length (K := binary64) sample_time sample_volume 3).
  - reflexivity.
  - reflexivity.
  - lia.
Defined.

(** C5, as stated, fails.  Infinity is a nonzero first element, and the
    stored first volume entry is then infinity over infinity, a NaN, which
    does not equal 1. *)
Lemma C5_counterexample :
  exists p s0,
    eqb (Scalar := binary64) infinity zero = false /\
    __init__ (K := binary64) [0; 1]%float unbounded_volume = Ok p /\
    getitem (volume p) 0 = Ok s0 /\
    eqb s0 one = false.
Proof.
  eexists. eexists. split; [reflexivity|]. split; [reflexivity|].
  split; reflexivity.
Qed.

(** C5, amended.  For a profile constructed from a time sequence and a
    volume sequence of the same length whose first element is finite and
    nonzero, the stored volume is the input volume with each entry divided
    by the first input value, so the stored first entry equals 1; and for
    each [i < n-1] the stored [velocity[i]] is [(volume[i+1]/volume[0] -
    volume[i]/volume[0]) / (time[i+1] - time[i])]. *)
Theorem C5_normalised_volume_and_velocity
        {K : Scalar} {A : ArithLaws K}
        (ts vs : list num) (p : VolumeProfile) (v0 : num) :
  length ts = length vs ->
  __init__ ts vs = Ok p ->
  getitem vs 0 = Ok v0 ->
  is_finite v0 = true ->
  eqb v0 zero = false ->
  volume p = map (fun v => div v v0) vs /\
  (exists s0, getitem (volume p) 0 = Ok s0 /\ eqb s0 one = true) /\
  forall i ti ti' vi vi',
    nth_error ts i = Some ti -> nth_error ts (S i) = Some ti' ->
    nth_error vs i = Some vi -> nth_error vs (S i) = Some vi' ->
    nth_error (velocity p) i =
    Some (div (sub (div vi' v0) (div vi v0)) (sub ti' ti)).
Proof.
  intros Hlen Hp Hv0 Hfin Hnz.
  destruct (init_inv _ _ _ Hlen Hp) as [v0' [Hv0' ->]].
  rewrite Hv0 in Hv0'. inversion Hv0'; subst v0'. cbn [volume velocity].
  split; [reflexivity|]. split.
  - exists (div v0 v0). split; [|apply div_self; assumption].
    apply getitem_Ok in Hv0. apply getitem_Ok.
    unfold divide_scalar. rewrite nth_error_map, Hv0. reflexivity.
  - intros i ti ti' vi vi' Hti Hti' Hvi Hvi'.
    destruct (forward_differences_init ts vs v0 Hlen) as [Hfdlen Hfd].
    rewrite nth_error_app1.
    + apply (Hfd i ti ti' vi vi'); assumption.
    + rewrite Hfdlen.
      assert (S i < length ts) by (apply nth_error_Some; congruence). lia.
Qed.

Lemma C5_normalised_volume_and_velocity_witness :
  volume sample_profile =
  map (fun v => @div binary64 v 3%float) sample_volume /\
  (exists s0, getitem (volume sample_profile) 0 = Ok s0 /\
              eqb s0 one = true) /\
  forall i ti ti' vi vi',
    nth_error sample_time i = Some ti ->
    nth_error sample_time (S i) = Some ti' ->
    nth_error sample_volume i = Some vi ->
    nth_error sample_volume (S i) = Some vi' ->
    nth_error (velocity sample_profile) i =
    Some (@div binary64 (sub (div vi' 3%float) (div vi 3%float))
                        (sub ti' ti)).
Proof.
  apply (C5_normalised_volume_and_velocity (K := binary64)
           sample_time sample_volume sample_profile 3%float); reflexivity.
Defined.

(** C6, as stated, fails twice over.  In binary64 the times [0, 1, 2] and
    the volumes [3, 4, 5] are uniformly spaced and linear, and the two
    computed velocities differ in the last bits, because 4/3 and 5/3 are
    rounded.  And in exact arithmetic the volumes [-2, -1, 0] rise
    linearly, and the computed velocities are negative, because the
    volume is divided by its negative first value. *)
Lemma C6_counterexample :
  (uniform_positive_steps sample_time = true /\
   uniform_positive_steps sample_volume = true /\
   exists p fd,
     __init__ sample_time sample_volume = Ok p /\
     velocity p = fd ++ [zero] /\
     all_equal_positive fd = false) /\
  (uniform_positive_steps exact_time = true /\
   uniform_positive_steps rising_negative_volume = true /\
   exists p fd,
     __init__ exact_time rising_negative_volume = Ok p /\
     velocity p = fd ++ [zero] /\
     all_equal_positive fd = false).
Proof.
  split.
  - split; [reflexivity|]. split; [reflexivity|].
    eexists.
    exists [0x1.5555555555554p-2; 0x1.5555555555558p-2]%float.
    split; [reflexivity|]. split; reflexivity.
  - split; [reflexivity|]. split; [reflexivity|].
    eexists. exists [-2 # 4; -2 # 4]%Q.
    split; [reflexivity|]. split; reflexivity.
Qed.

(** C6, amended.  In exact arithmetic, for a profile constructed from a
    time sequence with uniform positive spacing and a strictly linearly
    increasing volume sequence whose first value is positive, the [n-1]
    computed velocities are all equal and positive (and the appended last
    entry is 0).  In binary64 they agree only up to rounding. *)
Theorem C6_uniform_linear_velocities
        (ts vs : list (@num exact)) (p : VolumeProfile) (v0 : Q) :
  length ts = length vs ->
  __init__ (K := exact) ts vs = Ok p ->
  uniform_positive_steps ts = true ->
  uniform_positive_steps vs = true ->
  getitem vs 0 = Ok v0 ->
  ltb (Scalar := exact) zero v0 = true ->
  exists fd,
    velocity p = fd ++ [zero] /\
    length fd = length ts - 1 /\
    all_equal_positive fd = true.
Proof.
  intros Hlen Hp Hts Hvs Hv0 Hpos.
  destruct (init_inv _ _ _ Hlen Hp) as [v0' [Hv0' ->]].
  rewrite Hv0 in Hv0'. inversion Hv0'; subst v0'. clear Hv0'.
  eexists. split; [reflexivity|].
  destruct (forward_differences_init ts vs v0 Hlen) as [Hfdlen _].
  split; [exact Hfdlen|].
  assert (Hv0pos : (0 < v0)%Q).
  { simpl in Hpos. apply negb_true_iff in Hpos. apply Qnot_le_lt.
    intros H. apply Qle_bool_iff in H. congruence. }
  unfold uniform_positive_steps in Hts, Hvs.
  destruct (np_diff ts) as [|h hs] eqn:Ehs.
  { destruct (np_diff (divide_scalar vs v0)); reflexivity. }
  destruct (np_diff vs) as [|d ds] eqn:Eds.
  { assert (Hnil : length (np_diff (divide_scalar vs v0)) = 0).
    { rewrite np_diff_length. unfold divide_scalar. rewrite length_map.
      rewrite <- np_diff_length, Eds. reflexivity. }
    destruct (np_diff (divide_scalar vs v0)); [reflexivity | discriminate]. }
  rewrite <- Ehs in Hts. rewrite <- Eds in Hvs.
  destruct (constant_steps ts h Hts) as [Hh Hhs]; [rewrite Ehs; reflexivity|].
  destruct (constant_steps vs d Hvs) as [Hd Hds]; [rewrite Eds; reflexivity|].
  assert (Hall : Forall (fun x => (x == d / v0 / h)%Q)
                        (divide_elementwise (np_diff (divide_scalar vs v0))
                                            (np_diff ts))).
  { apply forward_differences_constant; try assumption; lra. }
  rewrite Ehs in *.
  apply all_equal_positive_exact.
  destruct (divide_elementwise _ _) as [|c fd']; [exact I|].
  inversion Hall as [|? ? Hc Hfd']; subst.
  assert (Hq : (0 < d / v0 / h)%Q).
  { apply Qlt_shift_div_l; [exact Hh|]. apply Qlt_shift_div_l; [exact Hv0pos|].
    lra. }
  split; [lra|].
  apply Forall_forall. intros x Hx.
  rewrite Hc. apply (proj1 (Forall_forall _ _) Hfd' x Hx).
Qed.

Lemma C6_uniform_linear_velocities_witness :
  exists fd,
    [3 # 9; 3 # 9; 0]%Q = fd ++ [0%Q] /\
    length fd = length exact_time - 1 /\
    all_equal_positive (K := exact) fd = true.
Proof.
  apply (C6_uniform_linear_velocities exact_time [3; 4; 5]%Q
           {| time := exact_time; volume := [3 # 3; 4 # 3; 5 # 3]%Q;
              velocity := [3 # 9; 3 # 9; 0]%Q |} 3%Q); reflexivity.
Defined.

(** C7, as stated, fails.  The trace [0, 1, 1] repeats the time 1.  The
    queries 1 and 5 are both at or after it and 1 is the largest time not
    exceeding either, yet the call returns [velocity[1]] (infinite, a
    division by the zero time delta) at 1 and the literal 0 at 5: no
    tie-break rule on the time value gives both. *)
Lemma C7_counterexample :
  __init__ repeated_time repeated_volume = Ok repeated_profile /\
  nondecreasing repeated_time = true /\
  ~ exists rule : num -> nat,
      forall t, leb (Scalar := binary64) 1%float t = true ->
                lookup_by_largest_time repeated_profile rule t.
Proof.
  split; [reflexivity|]. split; [reflexivity|].
  intros [rule Hrule].
  assert (Hprev : forall t prev,
             largest_not_exceeding repeated_time t prev ->
             leb (Scalar := binary64) 1%float t = true -> prev = 1%float).
  { intros t prev [Hin [_ Hmax]] Ht.
    assert (H1 : leb (Scalar := binary64) 1%float prev = true).
    { apply Hmax; [right; left; reflexivity | exact Ht]. }
    destruct Hin as [<- | [<- | [<- | []]]];
      [discriminate H1 | reflexivity | reflexivity]. }
  destruct (Hrule 1%float eq_refl) as [prev1 [Hl1 Hc1]].
  destruct (Hrule 5%float eq_refl) as [prev5 [Hl5 Hc5]].
  rewrite (Hprev _ _ Hl1 eq_refl) in Hc1.
  rewrite (Hprev _ _ Hl5 eq_refl) in Hc5.
  rewrite <- Hc1 in Hc5. discriminate Hc5.
Qed.

(** C7, amended.  For time samples in non-decreasing order (repeats
    allowed, as many volume samples) and a query at or after the first
    sample: if [t <= time[-1]], the call returns the velocity at the first
    index whose time compares equal to the largest time not exceeding [t];
    otherwise it returns 0. *)
Theorem C7_lookup_with_repeated_times
        {K : Scalar} {L : ScalarLaws K}
        (ts vs : list num) (p : VolumeProfile) (t t_first t_last : num) :
  length ts = length vs ->
  __init__ ts vs = Ok p ->
  nondecreasing ts = true ->
  getitem ts 0 = Ok t_first ->
  getitem_last ts = Ok t_last ->
  leb t_first t = true ->
  (leb t t_last = true ->
   exists prev i v,
     largest_not_exceeding ts t prev /\
     first_index_of ts prev i /\
     nth_error (velocity p) i = Some v /\
     __call__ p t = Ok v) /\
  (leb t t_last = false -> __call__ p t = Ok zero).
Proof.
  intros Hlen Hp Hsorted Hfirst Hlast Hge.
  pose proof (init_time _ _ _ Hp) as Htime.
  pose proof (init_velocity_length _ _ _ Hlen Hp) as Hvlen.
  split.
  - intros Hle.
    assert (Hrange : in_range (time p) t).
    { rewrite Htime. exists t_first, t_last. repeat split; assumption. }
    rewrite <- Htime in Hsorted.
    destruct (call_in_range p t Hsorted Hrange)
      as [prev [i [Hlargest [Hfst Hcall]]]].
    rewrite Htime in *.
    assert (Hi : i < length (velocity p)).
    { rewrite Hvlen. destruct Hfst as [[ti [Hti _]] _].
      apply nth_error_Some. congruence. }
    destruct (nth_error (velocity p) i) as [v|] eqn:Hv;
      [|apply nth_error_Some in Hi; contradiction].
    exists prev, i, v. split; [exact Hlargest|]. split; [exact Hfst|].
    split; [exact Hv|].
    rewrite Hcall. unfold getitem. rewrite Hv. reflexivity.
  - intros Hgt. apply (call_above p t t_last); [|exact Hgt].
    rewrite Htime. exact Hlast.
Qed.

Lemma C7_lookup_with_repeated_times_witness :
  (leb (Scalar := binary64) 1%float 1%float = true ->
   exists prev i v,
     largest_not_exceeding repeated_time 1%float prev /\
     first_index_of repeated_time prev i /\
     nth_error (velocity repeated_profile) i = Some v /\
     __call__ repeated_profile 1%float = Ok v) /\
  (leb (Scalar := binary64) 1%float 1%float = false ->
   __call__ repeated_profile 1%float = Ok zero).
Proof.
  apply (C7_lookup_with_repeated_times (K := binary64)
           repeated_time repeated_volume repeated_profile
           1%float 0%float 1%float); reflexivity.
Defined.

(** C9.  For a profile constructed from strictly increasing time samples
    of length [n >= 1] (and as many volume samples), the query at exactly
    the last sample time passes the range guard and reads [velocity[n-1]],
    the appended entry, which is 0; so the call returns 0 for every
    [t >= time[n-1]].  That the value is read, not produced by a branch of
    the call, is the last conjunct: on any object with these time samples
    the call at the last sample time is the read of entry [n-1] of whatever
    velocity array the object stores. *)
Theorem C9_call_at_and_after_last_sample
        {K : Scalar} {L : ScalarLaws K}
        (ts vs : list num) (p : VolumeProfile) (n : nat) (t_last : num) :
  length ts = n -> length vs = n -> 1 <= n ->
  __init__ ts vs = Ok p ->
  strictly_increasing ts = true ->
  nth_error ts (n - 1) = Some t_last ->
  in_range (time p) t_last /\
  __call__ p t_last = getitem (velocity p) (n - 1) /\
  getitem (velocity p) (n - 1) = Ok zero /\
  (forall t, geb t t_last = true -> __call__ p t = Ok zero) /\
  (forall self : VolumeProfile,
      time self = ts ->
      __call__ self t_last = getitem (velocity self) (n - 1)).
Proof.
  intros Hts Hvs Hn Hp Hstrict Hlast.
  assert (Hlen : length ts = length vs) by congruence.
  pose proof (init_time _ _ _ Hp) as Htime.
  pose proof (strictly_increasing_is_number ts t_last Hstrict
                (nth_error_In _ _ Hlast)) as Hnum.
  assert (Hzero : getitem (velocity p) (n - 1) = Ok zero).
  { destruct (init_inv _ _ _ Hlen Hp) as [v0 [Hv0 ->]]. simpl.
    destruct (forward_differences_init ts vs v0 Hlen) as [Hfdlen _].
    unfold getitem. rewrite nth_error_app2 by lia.
    replace (n - 1 - _) with 0 by lia. reflexivity. }
  assert (Hread : forall self : VolumeProfile,
             time self = ts ->
             __call__ self t_last = getitem (velocity self) (n - 1)).
  { intros self Hself.
    apply (call_at_index self t_last (n - 1) t_last).
    - rewrite Hself. exact Hstrict.
    - rewrite Hself. exact Hlast.
    - exact Hnum.
    - exact Hnum. }
  rewrite <- Htime in Hstrict, Hlast.
  destruct (call_at_index p t_last (n - 1) t_last Hstrict Hlast Hnum Hnum)
    as [Hrange Hcall].
  split; [exact Hrange|]. split; [exact Hcall|]. split; [exact Hzero|].
  split; [|exact Hread].
  intros t Hge. unfold geb in Hge.
  destruct (leb t t_last) eqn:Hle.
  - destruct (call_at_index p t (n - 1) t_last Hstrict Hlast Hge Hle)
      as [_ Hcall'].
    rewrite Hcall'. exact Hzero.
  - apply (call_above p t t_last); [|exact Hle].
    apply getitem_last_nth. rewrite Htime. split.
    + intros E. rewrite E in Hts. simpl in Hts. lia.
    + rewrite Hts. rewrite Htime in Hlast. exact Hlast.
Qed.

Lemma C9_call_at_and_after_last_sample_witness :
  in_range (time sample_profile) 2%float /\
  __call__ sample_profile 2%float = getitem (velocity sample_profile) (3 - 1) /\
  getitem (velocity sample_profile) (3 - 1) = Ok 0%float /\
  (forall t, geb (K := binary64) t 2%float = true ->
             __call__ sample_profile t = Ok 0%float) /\
  (forall self : VolumeProfile (K := binary64),
      time self = sample_time ->
      __call__ self 2%float = getitem (velocity self) (3 - 1)).
Proof.
  apply (C9_call_at_and_after_last_sample (K := binary64)
           sample_time sample_volume sample_profile 3 2%float).
  - reflexivity.
  - reflexivity.
  - lia.
  - reflexivity.
  - reflexivity.
  - reflexivity.
Defined.

(** C10, as stated, fails.  The times [0, 1] are strictly increasing, and
    with the volumes [0, 1] the normalising divisions have the divisor
    [volume[0] = 0]. *)
Lemma C10_counterexample :
  exists p ops,
    strictly_increasing (K := binary64) [0; 1]%float = true /\
    __init__ (K := binary64) [0; 1]%float zero_first_volume = Ok p /\
    init_divisions (K := binary64) [0; 1]%float zero_first_volume = Ok ops /\
    forallb nonzero (map snd ops) = false.
Proof.
  eexists. eexists. split; [reflexivity|]. split; [reflexivity|].
  split; reflexivity.
Qed.

(** C10, amended.  For strictly increasing time samples and a volume
    sequence of the same length [n >= 1], the constructor raises nothing
    and every division by a time delta has a nonzero divisor; the
    normalising divisions have the divisor [volume[0]], so all divisors are
    nonzero when [volume[0]] is.  For a query with [time[0] <= t <=
    time[-1]] every index the call uses is in bounds: the call raises
    nothing. *)
Theorem C10_no_error_branch
        {K : Scalar} {L : ScalarLaws K} {A : ArithLaws K}
        (ts vs : list num) (n : nat) :
  length ts = n -> length vs = n -> 1 <= n ->
  strictly_increasing ts = true ->
  exists p v0 ops fd,
    __init__ ts vs = Ok p /\
    getitem vs 0 = Ok v0 /\
    init_divisions ts vs = Ok ops /\
    velocity p = fd ++ [zero] /\
    map quotient ops = volume p ++ fd /\
    map snd ops = map (fun _ => v0) vs ++ np_diff ts /\
    forallb nonzero (np_diff ts) = true /\
    (nonzero v0 = true -> forallb nonzero (map snd ops) = true) /\
    forall t, in_range ts t -> exists v, __call__ p t = Ok v.
Proof.
  intros Hts Hvs Hn Hstrict.
  assert (Hlen : length ts = length vs) by congruence.
  destruct (init_total ts vs Hlen) as [p [v0 [Hp Hv0]]]; [lia|].
  destruct (init_divisions_spec ts vs p Hlen Hp)
    as [v0' [ops [fd [Hv0' [Hops [Hvel [Hquot Hsnd]]]]]]].
  rewrite Hv0 in Hv0'. inversion Hv0'; subst v0'. clear Hv0'.
  pose proof (time_deltas_nonzero ts Hstrict) as Hdt.
  exists p, v0, ops, fd.
  repeat (split; [assumption|]). split.
  - intros Hnz. rewrite Hsnd, forallb_app, Hdt, andb_true_r.
    apply forallb_forall. intros d Hd. apply in_map_iff in Hd.
    destruct Hd as [_ [<- _]]. exact Hnz.
  - intros t Hrange.
    apply (call_ok_in_range ts vs p t Hlen Hp); [|exact Hrange].
    apply strictly_increasing_nondecreasing, Hstrict.
Qed.

Lemma C10_no_error_branch_witness :
  exists p v0 ops fd,
    __init__ sample_time sample_volume = Ok p /\
    getitem sample_volume 0 = Ok v0 /\
    init_divisions sample_time sample_volume = Ok ops /\
    velocity p = fd ++ [zero] /\
    map quotient ops = volume p ++ fd /\
    map snd ops = map (fun _ => v0) sample_volume ++ np_diff sample_time /\
    forallb nonzero (np_diff sample_time) = true /\
    (nonzero v0 = true -> forallb nonzero (map snd ops) = true) /\
    forall t, in_range sample_time t -> exists v, __call__ p t = Ok v.
Proof.
  apply (C10_no_error_branch (K := binary64) sample_time sample_volume 3).
  - reflexivity.
  - reflexivity.
  - lia.
  - reflexivity.
Defined.

(** * Further properties of the class *)

(** ** Lemmas *)

Lemma divide_outcome {K : Scalar} (a b : list num) :
  if broadcastable (length a) (length b)
  then exists c, divide a b = Ok c /\
                 length c = broadcast_length (length a) (length b)
  else divide a b = Raise ValueError.
Proof.
  unfold broadcastable, broadcast_length, divide.
  destruct (Nat.eqb (length a) (length b)) eqn:Hab.
  - simpl. eexists. split; [reflexivity|].
    apply divide_elementwise_length. apply Nat.eqb_eq, Hab.
  - destruct a as [|x [|x' a]]; destruct b as [|y [|y' b]]; simpl in *;
      try discriminate; try reflexivity;
      try (eexists; split; [reflexivity|]; simpl;
           rewrite ?length_map; reflexivity).
    unfold divide_scalar. eexists. split; [reflexivity|]. simpl.
    rewrite ?length_map. reflexivity.
Qed.

(** Whatever the shapes, an entry of [a / b] at an index of [b] is a
    quotient by that entry of [b]. *)
Lemma divide_nth {K : Scalar} (a b c : list num) (i : nat) (d : num) :
  divide a b = Ok c ->
  nth_error b i = Some d ->
  i < length c ->
  exists x, nth_error c i = Some (div x d).
Proof.
  unfold divide. intros Hdiv Hb Hi.
  destruct (Nat.eqb (length a) (length b)) eqn:Hab.
  - inversion Hdiv; subst c. apply Nat.eqb_eq in Hab.
    rewrite divide_elementwise_length in Hi by exact Hab.
    destruct (nth_error a i) as [x|] eqn:Ha;
      [|apply nth_error_None in Ha; lia].
    exists x. apply divide_elementwise_nth; assumption.
  - assert (Hmap : forall x, c = map (fun y => div x y) b ->
                             exists x', nth_error c i = Some (div x' d)).
    { intros x ->. exists x. rewrite nth_error_map, Hb. reflexivity. }
    assert (Hone : forall y, b = [y] -> c = divide_scalar a y ->
                             exists x', nth_error c i = Some (div x' d)).
    { intros y -> ->. destruct i as [|i];
        [|destruct i; discriminate Hb].
      inversion Hb; subst d. unfold divide_scalar in *.
      rewrite length_map in Hi.
      destruct (nth_error a 0) as [x|] eqn:Ha;
        [|apply nth_error_None in Ha; lia].
      exists x. rewrite nth_error_map, Ha. reflexivity. }
    destruct a as [|x [|x' a]].
    + destruct b as [|y [|y' b]]; try discriminate Hdiv.
      apply (Hone y); [reflexivity | congruence].
    + apply (Hmap x). congruence.
    + destruct b as [|y [|y' b]]; try discriminate Hdiv.
      apply (Hone y); [reflexivity | congruence].
Qed.

Section GuardFacts.
Context {K : Scalar} {L : ScalarLaws K}.

(** [self.time[self.time <= t][-1]] on any array with an entry that does
    not exceed [t]. *)
Lemma prev_time_point_last (a : list num) (t : num) :
  (exists x, In x a /\ leb x t = true) ->
  exists prev,
    getitem_last (getitem_mask a (less_equal a t)) = Ok prev /\
    last_not_exceeding a t prev.
Proof.
  unfold less_equal. rewrite getitem_mask_filter.
  induction a as [|x a IH]; intros Hex.
  - destruct Hex as [x [[] _]].
  - destruct (existsb (fun y => leb y t) a) eqn:Hany.
    + apply existsb_exists in Hany.
      destruct (IH Hany) as [prev [Hlast [k [Hk [Hle Hafter]]]]].
      exists prev. split.
      * simpl. destruct (leb x t); [apply getitem_last_skip|]; exact Hlast.
      * exists (S k). split; [exact Hk|]. split; [exact Hle|].
        intros [|j] y Hj Hy; [lia|]. apply (Hafter j y); [lia | exact Hy].
    + assert (Hnone : forall y, In y a -> leb y t = false).
      { intros y Hy. destruct (leb y t) eqn:E; [|reflexivity].
        rewrite <- Hany. symmetry. apply existsb_exists. exists y; auto. }
      assert (Hxt : leb x t = true).
      { destruct Hex as [y [[Hy | Hy] Hyt]]; [subst; exact Hyt|].
        rewrite (Hnone y Hy) in Hyt. discriminate. }
      assert (Hnil : filter (fun y => leb y t) a = []).
      { clear -Hnone. induction a as [|y a IH]; simpl; [reflexivity|].
        rewrite (Hnone y (or_introl eq_refl)). apply IH.
        intros z Hz. apply Hnone. right; exact Hz. }
      exists x. simpl. rewrite Hxt, Hnil. split; [reflexivity|].
      exists 0. split; [reflexivity|]. split; [exact Hxt|].
      intros [|j] y Hj Hy; [lia|]. apply Hnone. simpl in Hy.
      apply (nth_error_In _ _ Hy).
Qed.

(** Inside the guard, whatever the order of the time array. *)
Lemma call_in_guard (self : VolumeProfile) (t : num) :
  in_range (time self) t ->
  exists prev i,
    last_not_exceeding (time self) t prev /\
    first_index_of (time self) prev i /\
    __call__ self t = getitem (velocity self) i.
Proof.
  intros [t_first [t_last [Hfirst [Hlast [Hge Hle]]]]].
  assert (Hex : exists x, In x (time self) /\ leb x t = true).
  { exists t_first. split; [|exact Hge].
    apply getitem_Ok in Hfirst. apply (nth_error_In _ _ Hfirst). }
  destruct (prev_time_point_last _ t Hex) as [prev [Hprev Hlastle]].
  pose proof Hlastle as [k [Hk [Hpt _]]].
  destruct (index_spec _ prev (nth_error_In _ _ Hk) (leb_refl_l _ _ Hpt))
    as [i [ti [Hidx [Hti [Heq Hfst]]]]].
  exists prev, i. split; [exact Hlastle|]. split.
  - split; [exists ti; split; assumption | exact Hfst].
  - unfold __call__. rewrite Hlast. simpl. rewrite Hle, Hfirst. simpl.
    unfold geb. rewrite Hge, Hprev. simpl. rewrite Hidx. reflexivity.
Qed.

(** The guard is decided for every query once the time array is not
    empty. *)
Lemma guard_cases (self : VolumeProfile) (t : num) :
  time self <> [] ->
  in_range (time self) t \/ __call__ self t = Ok zero.
Proof.
  intros Hne. destruct (time self) as [|t_first a] eqn:Et; [contradiction|].
  destruct (getitem_last (t_first :: a)) as [t_last|e] eqn:Hlast;
    [|discriminate].
  destruct (leb t t_last) eqn:Hle.
  - destruct (leb t_first t) eqn:Hge.
    + left. exists t_first, t_last. repeat split; assumption.
    + right. apply (call_below self t t_first); [rewrite Et; reflexivity|].
      exact Hge.
  - right. apply (call_above self t t_last); [rewrite Et; exact Hlast|].
    exact Hle.
Qed.
End GuardFacts.

(** ** The constructor's outcomes *)

(** X1.  The constructor raises [IndexError] exactly on an empty volume
    sequence.  Otherwise it checks no lengths itself: it raises
    [ValueError] when the [len(volume)-1] volume differences and the
    [len(time)-1] time deltas cannot be broadcast together, and else
    stores the time sequence, as many volumes as given, and one velocity
    more than the broadcast length. *)
Theorem X1_constructor_outcome {K : Scalar} (ts vs : list num) :
  match vs with
  | [] => __init__ ts vs = Raise IndexError
  | _ :: _ =>
      if broadcastable (length vs - 1) (length ts - 1)
      then exists p,
          __init__ ts vs = Ok p /\
          time p = ts /\
          length (volume p) = length vs /\
          length (velocity p) =
          S (broadcast_length (length vs - 1) (length ts - 1))
      else __init__ ts vs = Raise ValueError
  end.
Proof.
  destruct vs as [|v0 vs']; [reflexivity|].
  remember (v0 :: vs') as vs eqn:Evs.
  assert (Hv0 : getitem vs 0 = Ok v0) by (subst vs; reflexivity).
  pose proof (divide_outcome (np_diff (divide_scalar vs v0)) (np_diff ts))
    as Hdiv.
  rewrite !np_diff_length in Hdiv. unfold divide_scalar in Hdiv at 1 3.
  rewrite !length_map in Hdiv. unfold __init__. rewrite Hv0. simpl bind.
  destruct (broadcastable (length vs - 1) (length ts - 1)).
  - destruct Hdiv as [c [Hc Hlen]]. rewrite Hc. simpl.
    eexists. split; [reflexivity|]. simpl. split; [reflexivity|].
    split; [unfold divide_scalar; apply length_map|].
    unfold np_append. rewrite length_app, Hlen. simpl. lia.
  - rewrite Hdiv. reflexivity.
Qed.

(** ** The call on any constructed profile *)

(** X2.  On a profile constructed from a time and a volume sequence of one
    length the call raises nothing, whatever the query and whatever the
    order of the time samples: it returns the literal 0 or one of the
    stored velocities, at an index below the length. *)
Theorem X2_call_never_raises
        {K : Scalar} {L : ScalarLaws K}
        (ts vs : list num) (p : VolumeProfile) (t : num) :
  length ts = length vs ->
  __init__ ts vs = Ok p ->
  exists v,
    __call__ p t = Ok v /\
    (v = zero \/
     exists i, i < length ts /\ nth_error (velocity p) i = Some v).
Proof.
  intros Hlen Hp.
  pose proof (init_time _ _ _ Hp) as Htime.
  pose proof (init_velocity_length _ _ _ Hlen Hp) as Hvlen.
  assert (Hne : time p <> []).
  { rewrite Htime. intros E. rewrite E in Hlen.
    destruct vs as [|v vs]; [|simpl in Hlen; discriminate Hlen].
    unfold __init__ in Hp. simpl in Hp. discriminate Hp. }
  destruct (guard_cases p t Hne) as [Hrange | Hzero].
  - destruct (call_in_guard p t Hrange)
      as [prev [i [_ [[[ti [Hti _]] _] Hcall]]]].
    assert (Hi : i < length ts).
    { rewrite <- Htime. apply nth_error_Some. congruence. }
    destruct (nth_error (velocity p) i) as [v|] eqn:Hv.
    + exists v. split.
      * rewrite Hcall. unfold getitem. rewrite Hv. reflexivity.
      * right. exists i. split; [exact Hi | exact Hv].
    + apply nth_error_None in Hv. lia.
  - exists zero. split; [exact Hzero | left; reflexivity].
Qed.

Lemma X2_call_never_raises_witness :
  exists v,
    __call__ unordered_profile 2.5%float = Ok v /\
    (v = zero \/
     exists i, i < length unordered_time /\
               nth_error (velocity unordered_profile) i = Some v).
Proof.
  apply (X2_call_never_raises (K := binary64)
           unordered_time unordered_volume); reflexivity.
Defined.

(** X3.  A query that is not a number (a NaN) compares false with every
    sample, so on a profile with at least one time sample the call takes
    the [else] branch and returns 0. *)
Theorem X3_call_on_nan
        {K : Scalar} {L : ScalarLaws K} (self : VolumeProfile) (t : num) :
  time self <> [] ->
  is_number t = false ->
  __call__ self t = Ok zero.
Proof.
  intros Hne Hnan.
  destruct (guard_cases self t Hne) as [Hrange | Hzero]; [|exact Hzero].
  destruct Hrange as [t_first [t_last [_ [_ [_ Hle]]]]].
  unfold is_number in Hnan. rewrite (leb_refl_l _ _ Hle) in Hnan.
  discriminate.
Qed.

Lemma X3_call_on_nan_witness :
  __call__ sample_profile nan = Ok 0%float.
Proof.
  apply (X3_call_on_nan (K := binary64)).
  - discriminate.
  - reflexivity.
Defined.

(** X4.  The call does not check that the time samples are in order.  For
    a query inside the guard it finds the last entry, in array order, that
    does not exceed [t], and returns the velocity at the first index whose
    time compares equal to that entry. *)
Theorem X4_call_on_unordered_times
        {K : Scalar} {L : ScalarLaws K}
        (ts vs : list num) (p : VolumeProfile) (t : num) :
  length ts = length vs ->
  __init__ ts vs = Ok p ->
  in_range ts t ->
  exists prev i v,
    last_not_exceeding ts t prev /\
    first_index_of ts prev i /\
    nth_error (velocity p) i = Some v /\
    __call__ p t = Ok v.
Proof.
  intros Hlen Hp Hrange.
  pose proof (init_time _ _ _ Hp) as Htime.
  pose proof (init_velocity_length _ _ _ Hlen Hp) as Hvlen.
  rewrite <- Htime in Hrange.
  destruct (call_in_guard p t Hrange) as [prev [i [Hlast [Hfst Hcall]]]].
  rewrite Htime in *.
  assert (Hi : i < length (velocity p)).
  { rewrite Hvlen. destruct Hfst as [[ti [Hti _]] _].
    apply nth_error_Some. congruence. }
  destruct (nth_error (velocity p) i) as [v|] eqn:Hv;
    [|apply nth_error_Some in Hi; contradiction].
  exists prev, i, v. split; [exact Hlast|]. split; [exact Hfst|].
  split; [exact Hv|].
  rewrite Hcall. unfold getitem. rewrite Hv. reflexivity.
Qed.

Lemma X4_call_on_unordered_times_witness :
  exists prev i v,
    last_not_exceeding unordered_time 2.5%float prev /\
    first_index_of unordered_time prev i /\
    nth_error (velocity unordered_profile) i = Some v /\
    __call__ unordered_profile 2.5%float = Ok v.
Proof.
  apply (X4_call_on_unordered_times (K := binary64)
           unordered_time unordered_volume).
  - reflexivity.
  - reflexivity.
  - exists 0%float, 3%float. repeat split; reflexivity.
Defined.

(** X5.  For a profile constructed from strictly increasing time samples
    (and as many volume samples), every query in one sampling interval,
    [time[i] <= t < time[i+1]], returns [velocity[i]]: the profile is
    constant between two samples. *)
Theorem X5_constant_between_samples
        {K : Scalar} {L : ScalarLaws K}
        (ts vs : list num) (p : VolumeProfile) (i : nat) (ti ti' t : num) :
  length ts = length vs ->
  __init__ ts vs = Ok p ->
  strictly_increasing ts = true ->
  nth_error ts i = Some ti ->
  nth_error ts (S i) = Some ti' ->
  leb ti t = true ->
  ltb t ti' = true ->
  exists v, nth_error (velocity p) i = Some v /\ __call__ p t = Ok v.
Proof.
  intros Hlen Hp Hstrict Hti Hti' Hle Hlt.
  pose proof (init_time _ _ _ Hp) as Htime.
  pose proof (init_velocity_length _ _ _ Hlen Hp) as Hvlen.
  pose proof (strictly_increasing_nondecreasing _ Hstrict) as Hsorted.
  apply ltb_true in Hlt. destruct Hlt as [Hlt1 Hlt2].
  assert (Hrange : in_range ts t).
  { destruct (sample_in_range _ i ti Hsorted Hti)
      as [t_first [t_last [Hf [Hl [H1 _]]]]].
    destruct (sample_in_range _ (S i) ti' Hsorted Hti')
      as [t_first' [t_last' [_ [Hl' [_ H2]]]]].
    rewrite Hl in Hl'. inversion Hl'; subst t_last'.
    exists t_first, t_last. repeat split; try assumption.
    - apply (leb_trans _ _ _ H1 Hle).
    - apply (leb_trans _ _ _ Hlt1 H2). }
  rewrite <- Htime in Hstrict, Hrange.
  destruct (call_in_range_strict p t Hstrict Hrange)
    as [i0 [ti0 [Hti0 [[Hin [Hle0 Hmax]] Hcall]]]].
  rewrite Htime in *.
  assert (Hi0 : i0 = i).
  { destruct (Nat.lt_trichotomy i0 i) as [H | [H | H]]; [|exact H|].
    - pose proof (strictly_increasing_nth ts Hstrict i0 i ti0 ti H Hti0 Hti)
        as Hc. apply ltb_true in Hc. destruct Hc as [_ Hc].
      rewrite (Hmax ti (nth_error_In _ _ Hti) Hle) in Hc. discriminate.
    - assert (Hc : leb ti' ti0 = true).
      { apply (nondecreasing_nth ts Hsorted (S i) i0); [lia | assumption..]. }
      rewrite (leb_trans _ _ _ Hc Hle0) in Hlt2. discriminate. }
  subst i0.
  assert (Hi : i < length (velocity p)).
  { rewrite Hvlen. apply nth_error_Some. congruence. }
  destruct (nth_error (velocity p) i) as [v|] eqn:Hv;
    [|apply nth_error_Some in Hi; contradiction].
  exists v. split; [reflexivity|].
  rewrite Hcall. unfold getitem. rewrite Hv. reflexivity.
Qed.

Lemma X5_constant_between_samples_witness :
  exists v, nth_error (velocity sample_profile) 1 = Some v /\
            __call__ sample_profile 1.75%float = Ok v.
Proof.
  apply (X5_constant_between_samples (K := binary64)
           sample_time sample_volume sample_profile 1 1%float 2%float);
    reflexivity.
Defined.

(** ** A constant volume trace *)

Section Binary64Cancel.
Local Open Scope Z_scope.

Lemma binary_round_aux_number s (m : positive) e l :
  emin <= e -> SF_is_number (binary_round_aux prec emax s (Z.pos m) e l) = true.
Proof.
  intros He. unfold binary_round_aux.
  destruct (shr_fexp_pos m e l He) as [H1 H2].
  destruct (shr_fexp prec emax (Z.pos m) e l) as [mrs' e']. simpl in H1, H2.
  pose proof (round_nearest_even_pos (shr_m mrs') (loc_of_shr_record mrs') H1)
    as Hr.
  destruct (round_nearest_even (shr_m mrs') (loc_of_shr_record mrs'))
    as [|m1|m1]; try lia.
  destruct (shr_fexp_pos m1 e' loc_Exact H2) as [H3 H4].
  destruct (shr_fexp prec emax (Z.pos m1) e' loc_Exact) as [mrs'' e''].
  simpl in H3, H4.
  destruct (shr_m mrs'') as [|m2|m2]; try lia.
  destruct (e'' <=? emax - prec); reflexivity.
Qed.

Lemma binary_normalize_number m e sz :
  emin <= e -> SF_is_number (binary_normalize prec emax m e sz) = true.
Proof.
  intros He. destruct m as [|m|m]; [reflexivity| |];
    unfold binary_normalize, binary_round, shl_align;
    destruct (fexp prec emax (Z.pos (digits2_pos m) + e) - e) eqn:Hf;
    apply binary_round_aux_number; try lia;
    unfold fexp, SpecFloat.emin in *; lia.
Qed.

(** The difference of two numbers in strict order is a number. *)
Lemma SF64sub_lt_number (X Y : spec_float) :
  valid_binary X = true -> valid_binary Y = true ->
  SFltb X Y = true -> SF_is_number (SF64sub Y X) = true.
Proof.
  intros HX HY Hlt.
  destruct X as [sx|sx| |sx mx ex]; destruct Y as [sy|sy| |sy my ey];
    try discriminate Hlt; try reflexivity;
    try (destruct sx; destruct sy; try discriminate Hlt; reflexivity).
  destruct (valid_emin _ _ _ HX) as [_ HeX].
  destruct (valid_emin _ _ _ HY) as [_ HeY].
  unfold SF64sub, SFsub. apply binary_normalize_number. lia.
Qed.

Lemma SF64div_zero s (D : spec_float) :
  SF_is_zero D = false -> SF_is_number D = true ->
  SF_is_zero (SF64div (S754_zero s) D) = true.
Proof.
  destruct D as [sd|sd| |sd md ed]; intros Hz Hn;
    try discriminate Hz; try discriminate Hn; reflexivity.
Qed.

Lemma float_div_zero_delta (z x y : float) :
  PrimFloat.eqb z PrimFloat.zero = true -> PrimFloat.ltb x y = true ->
  PrimFloat.eqb (z / (y - x)) PrimFloat.zero = true.
Proof.
  rewrite ltb_spec, !eqb_spec, div_spec, sub_spec, Prim2SF_zero.
  intros Hz Hlt.
  pose proof (SF64sub_lt_nonzero _ _ (Prim2SF_valid x) (Prim2SF_valid y) Hlt)
    as Hnz.
  pose proof (SF64sub_lt_number _ _ (Prim2SF_valid x) (Prim2SF_valid y) Hlt)
    as Hnum.
  destruct (Prim2SF z) as [s|s| |s m e]; try discriminate Hz;
    try (destruct s; discriminate Hz).
  pose proof (SF64div_zero s _ Hnz Hnum) as Hq.
  destruct (SF64div (S754_zero s) (SF64sub (Prim2SF y) (Prim2SF x)))
    as [s'|s'| |s' m' e']; try discriminate Hq. reflexivity.
Qed.

Lemma float_div_self_one (x : float) :
  PrimFloat.is_finite x = true -> PrimFloat.eqb x PrimFloat.zero = false ->
  (x / x)%float = PrimFloat.one.
Proof.
  unfold PrimFloat.is_finite, is_nan, is_infinity.
  rewrite !eqb_spec, abs_spec, Prim2SF_zero.
  change (Prim2SF infinity) with (S754_infinity false).
  intros Hfin Hnz. apply Prim2SF_inj. rewrite div_spec, Prim2SF_one.
  destruct (Prim2SF x) as [s|s| |s m e].
  - discriminate Hnz.
  - destruct s; discriminate Hfin.
  - discriminate Hfin.
  - apply SF64div_self.
Qed.
End Binary64Cancel.

#[export] Instance binary64_cancel : CancelLaws binary64.
Proof.
  split; simpl.
  - reflexivity.
  - intros x Hfin Hnz. rewrite (float_div_self_one x Hfin Hnz). reflexivity.
  - apply float_div_zero_delta.
Qed.

#[export] Instance exact_cancel : CancelLaws exact.
Proof.
  split; simpl.
  - reflexivity.
  - intros x _ _. apply Qeq_bool_iff. ring.
  - intros z x y Hz _. apply Qeq_bool_iff. apply Qeq_bool_iff in Hz.
    rewrite Hz. unfold Qdiv. apply Qmult_0_l.
Qed.

Lemma constant_trace_velocities {K : Scalar} {C : CancelLaws K} (u : num) :
  eqb (sub u u) zero = true ->
  forall ts us : list num,
    (forall x, In x us -> x = u) ->
    adjacent ltb ts = true ->
    forallb (fun v => eqb v zero)
            (divide_elementwise (np_diff us) (np_diff ts)) = true.
Proof.
  intros Hu. induction ts as [|t1 [|t2 ts] IH]; intros us Hus Hts.
  - destruct (np_diff us); reflexivity.
  - destruct (np_diff us); reflexivity.
  - destruct us as [|a1 [|a2 us]]; try reflexivity.
    change (np_diff (t1 :: t2 :: ts)) with (sub t2 t1 :: np_diff (t2 :: ts)).
    change (np_diff (a1 :: a2 :: us)) with (sub a2 a1 :: np_diff (a2 :: us)).
    simpl in Hts. apply andb_true_iff in Hts. destruct Hts as [H12 Hts].
    cbn [divide_elementwise forallb]. apply andb_true_iff. split.
    + rewrite (Hus a1 (or_introl eq_refl)).
      rewrite (Hus a2 (or_intror (or_introl eq_refl))).
      apply div_zero_delta; assumption.
    + apply IH; [|exact Hts]. intros x Hx. apply Hus. right; exact Hx.
Qed.

(** X6.  A constant volume trace gives a piston at rest.  For a profile
    constructed from strictly increasing time samples and as many volume
    samples, all equal to one finite nonzero value, every stored velocity
    is zero, and the call returns zero for every query.  This holds in
    binary64 as it does in exact arithmetic. *)
Theorem X6_constant_volume_is_at_rest
        {K : Scalar} {L : ScalarLaws K} {C : CancelLaws K}
        (ts vs : list num) (p : VolumeProfile) (c t : num) :
  length ts = length vs ->
  __init__ ts vs = Ok p ->
  strictly_increasing ts = true ->
  (forall v, In v vs -> v = c) ->
  is_finite c = true ->
  eqb c zero = false ->
  forallb (fun v => eqb v zero) (velocity p) = true /\
  exists v, __call__ p t = Ok v /\ eqb v zero = true.
Proof.
  intros Hlen Hp Hstrict Hconst Hfin Hnz.
  pose proof (init_time _ _ _ Hp) as Htime.
  destruct (init_inv _ _ _ Hlen Hp) as [v0 [Hv0 Ep]].
  assert (Hc : v0 = c).
  { apply Hconst. apply getitem_Ok in Hv0. apply (nth_error_In _ _ Hv0). }
  subst v0.
  assert (Hvel : forallb (fun v => eqb v zero) (velocity p) = true).
  { rewrite Ep. cbn [velocity]. rewrite forallb_app. apply andb_true_iff.
    split; [|simpl; rewrite eqb_zero_zero; reflexivity].
    apply (constant_trace_velocities (div c c)).
    - apply sub_div_self; assumption.
    - intros x Hx. unfold divide_scalar in Hx. apply in_map_iff in Hx.
      destruct Hx as [v [<- Hv]]. rewrite (Hconst v Hv). reflexivity.
    - unfold strictly_increasing in Hstrict.
      apply andb_true_iff in Hstrict. apply Hstrict. }
  split; [exact Hvel|].
  assert (Hne : time p <> []).
  { rewrite Htime. intros E. rewrite E in Hlen.
    destruct vs as [|v vs]; [discriminate Hv0 | discriminate Hlen]. }
  destruct (guard_cases p t Hne) as [Hrange | Hzero].
  - destruct (call_in_guard p t Hrange)
      as [prev [i [_ [[[ti [Hti _]] _] Hcall]]]].
    assert (Hi : i < length (velocity p)).
    { rewrite (init_velocity_length _ _ _ Hlen Hp), <- Htime.
      apply nth_error_Some. congruence. }
    destruct (nth_error (velocity p) i) as [v|] eqn:Hv;
      [|apply nth_error_None in Hv; lia].
    exists v. split.
    + rewrite Hcall. unfold getitem. rewrite Hv. reflexivity.
    + apply (proj1 (forallb_forall _ _) Hvel v (nth_error_In _ _ Hv)).
  - exists zero. split; [exact Hzero | apply eqb_zero_zero].
Qed.

Lemma X6_constant_volume_is_at_rest_witness :
  forallb (fun v => eqb v zero) (velocity resting_profile) = true /\
  exists v,
    __call__ resting_profile 1.5%float = Ok v /\ eqb v zero = true.
Proof.
  apply (X6_constant_volume_is_at_rest (K := binary64)
           sample_time constant_volume resting_profile 3%float 1.5%float).
  - reflexivity.
  - reflexivity.
  - reflexivity.
  - intros v [<- | [<- | [<- | []]]]; reflexivity.
  - reflexivity.
  - reflexivity.
Defined.

(** ** Exact arithmetic: what the velocities mean *)

Section ExactMeaning.
Local Open Scope Q_scope.

Lemma exact_ltb_lt (x y : Q) : ltb (Scalar := exact) x y = true <-> x < y.
Proof.
  simpl. rewrite negb_true_iff. split; intros H.
  - apply Qnot_le_lt. intros Hle. apply Qle_bool_iff in Hle. congruence.
  - destruct (Qle_bool y x) eqn:E; [|reflexivity].
    apply Qle_bool_iff in E. lra.
Qed.

Lemma exact_nonzero (x : Q) : Qeq_bool x 0 = false <-> ~ x == 0.
Proof.
  split.
  - intros H E. apply Qeq_bool_iff in E. congruence.
  - intros H. destruct (Qeq_bool x 0) eqn:E; [|reflexivity].
    apply Qeq_bool_iff in E. contradiction.
Qed.

(** Summing velocity times time delta from [start] gives back the trace
    the velocities were differenced from. *)
Lemma cumulative_np_diff (ts : list Q) :
  adjacent (K := exact) ltb ts = true ->
  forall (a0 : Q) (a' extra : list Q) (start : Q),
    length (a0 :: a') = length ts ->
    a0 == start ->
    Forall2 Qeq (a0 :: a')
      (cumulative start
         (divide_elementwise (K := exact)
            (np_diff (K := exact) (a0 :: a')) (np_diff (K := exact) ts)
          ++ extra)
         (np_diff (K := exact) ts)).
Proof.
  induction ts as [|t1 [|t2 ts] IH]; intros Hts a0 a' extra start Hlen H0.
  - discriminate Hlen.
  - destruct a' as [|a1 a'']; [|discriminate Hlen].
    destruct extra; simpl; (constructor; [exact H0 | constructor]).
  - destruct a' as [|a1 a'']; [discriminate Hlen|].
    change (np_diff (K := exact) (t1 :: t2 :: ts))
      with (t2 - t1 :: np_diff (K := exact) (t2 :: ts)).
    change (np_diff (K := exact) (a0 :: a1 :: a''))
      with (a1 - a0 :: np_diff (K := exact) (a1 :: a'')).
    cbn [divide_elementwise app cumulative].
    simpl in Hts. apply andb_true_iff in Hts. destruct Hts as [H12 Hts].
    apply negb_true_iff in H12.
    assert (Hlt : t1 < t2).
    { apply Qnot_le_lt. intros Hle. apply Qle_bool_iff in Hle. congruence. }
    constructor; [exact H0|].
    apply (IH Hts a1 a'' extra).
    + simpl in Hlen. simpl. lia.
    + simpl. rewrite <- H0. field. lra.
Qed.

Lemma np_diff_Qeq (a b : list Q) :
  Forall2 Qeq a b ->
  Forall2 Qeq (np_diff (K := exact) a) (np_diff (K := exact) b).
Proof.
  intros H. induction H as [|x y a b Hxy Hab IH]; [constructor|].
  destruct Hab as [|x' y' a b Hxy' Hab]; [constructor|].
  change (np_diff (K := exact) (x :: x' :: a))
    with (x' - x :: np_diff (K := exact) (x' :: a)).
  change (np_diff (K := exact) (y :: y' :: b))
    with (y' - y :: np_diff (K := exact) (y' :: b)).
  constructor; [|exact IH]. rewrite Hxy, Hxy'. reflexivity.
Qed.

Lemma divide_elementwise_Qeq (a b d : list Q) :
  Forall2 Qeq a b ->
  Forall2 Qeq (divide_elementwise (K := exact) a d)
              (divide_elementwise (K := exact) b d).
Proof.
  intros H. revert d. induction H as [|x y a b Hxy Hab IH]; intros d.
  - constructor.
  - destruct d as [|z d]; [constructor|]. simpl.
    constructor; [|apply IH]. rewrite Hxy. reflexivity.
Qed.

Lemma normalise_scaled (c v0 : Q) (vs : list Q) :
  ~ c == 0 -> ~ v0 == 0 ->
  Forall2 Qeq (divide_scalar (K := exact) (map (Qmult c) vs) (c * v0))
              (divide_scalar (K := exact) vs v0).
Proof.
  intros Hc Hv0. induction vs as [|v vs IH]; simpl; constructor.
  - field. split; assumption.
  - exact IH.
Qed.
End ExactMeaning.

(** X7.  In exact arithmetic the stored velocities integrate back to the
    stored volume.  For a profile constructed from strictly increasing
    time samples and as many volume samples with a nonzero first value,
    the running sum of [velocity[i] * (time[i+1] - time[i])], started at
    1, equals the normalised volume entry by entry. *)
Theorem X7_velocities_integrate_to_volume
        (ts vs : list (@num exact)) (p : VolumeProfile) (v0 : Q) :
  length ts = length vs ->
  __init__ (K := exact) ts vs = Ok p ->
  strictly_increasing ts = true ->
  getitem vs 0 = Ok v0 ->
  eqb (Scalar := exact) v0 zero = false ->
  Forall2 Qeq (volume p) (cumulative 1 (velocity p) (np_diff ts)).
Proof.
  intros Hlen Hp Hstrict Hv0 Hnz.
  destruct (init_inv _ _ _ Hlen Hp) as [v0' [Hv0' ->]].
  rewrite Hv0 in Hv0'. inversion Hv0'; subst v0'. clear Hv0'.
  cbn [volume velocity].
  apply exact_nonzero in Hnz.
  unfold strictly_increasing in Hstrict. apply andb_true_iff in Hstrict.
  destruct Hstrict as [_ Hadj].
  destruct vs as [|v vs']; [discriminate Hv0|].
  inversion Hv0; subst v.
  change (divide_scalar (K := exact) (v0 :: vs') v0)
    with (Qdiv v0 v0 :: divide_scalar (K := exact) vs' v0).
  apply (cumulative_np_diff ts Hadj).
  - cbn [length]. unfold divide_scalar. rewrite length_map.
    symmetry. exact Hlen.
  - field. exact Hnz.
Qed.

Lemma X7_velocities_integrate_to_volume_witness :
  Forall2 Qeq [3 # 3; 4 # 3; 5 # 3]%Q
          (cumulative 1 [3 # 9; 3 # 9; 0]%Q (np_diff exact_time)).
Proof.
  apply (X7_velocities_integrate_to_volume exact_time [3; 4; 5]%Q
           {| time := exact_time; volume := [3 # 3; 4 # 3; 5 # 3]%Q;
              velocity := [3 # 9; 3 # 9; 0]%Q |} 3%Q); reflexivity.
Defined.

(** X8.  In exact arithmetic the profile depends on the volume trace only
    up to scale.  For strictly increasing time samples and as many volume
    samples with a nonzero first value, multiplying every volume sample by
    one nonzero factor leaves the stored normalised volume and the stored
    velocities unchanged.  Under these conditions no division of either
    construction has a zero divisor. *)
Theorem X8_volume_scale_invariance
        (ts vs : list (@num exact)) (p p' : VolumeProfile) (v0 c : Q) :
  length ts = length vs ->
  strictly_increasing ts = true ->
  __init__ (K := exact) ts vs = Ok p ->
  __init__ (K := exact) ts (map (Qmult c) vs) = Ok p' ->
  getitem vs 0 = Ok v0 ->
  eqb (Scalar := exact) v0 zero = false ->
  eqb (Scalar := exact) c zero = false ->
  Forall2 Qeq (volume p') (volume p) /\
  Forall2 Qeq (velocity p') (velocity p).
Proof.
  intros Hlen _ Hp Hp' Hv0 Hnz Hc.
  apply exact_nonzero in Hnz. apply exact_nonzero in Hc.
  destruct (init_inv _ _ _ Hlen Hp) as [v0' [Hv0' ->]].
  rewrite Hv0 in Hv0'. inversion Hv0'; subst v0'. clear Hv0'.
  assert (Hlen' : length ts = length (map (Qmult c) vs))
    by (rewrite length_map; exact Hlen).
  destruct (init_inv _ _ _ Hlen' Hp') as [w0 [Hw0 ->]].
  assert (Ew : w0 = (c * v0)%Q).
  { destruct vs as [|v vs']; [discriminate Hv0|].
    inversion Hv0; subst v. inversion Hw0; reflexivity. }
  subst w0. cbn [volume velocity].
  pose proof (normalise_scaled c v0 vs Hc Hnz) as Hvol.
  split; [exact Hvol|].
  apply Forall2_app; [|constructor; [reflexivity | constructor]].
  apply divide_elementwise_Qeq, np_diff_Qeq, Hvol.
Qed.

Lemma X8_volume_scale_invariance_witness :
  Forall2 Qeq [6 # 6; 8 # 6; 10 # 6]%Q [3 # 3; 4 # 3; 5 # 3]%Q /\
  Forall2 Qeq [12 # 36; 12 # 36; 0]%Q [3 # 9; 3 # 9; 0]%Q.
Proof.
  apply (X8_volume_scale_invariance exact_time [3; 4; 5]%Q
           {| time := exact_time; volume := [3 # 3; 4 # 3; 5 # 3]%Q;
              velocity := [3 # 9; 3 # 9; 0]%Q |}
           {| time := exact_time; volume := [6 # 6; 8 # 6; 10 # 6]%Q;
              velocity := [12 # 36; 12 # 36; 0]%Q |} 3%Q 2%Q); reflexivity.
Defined.

(** X9.  In exact arithmetic the sign of a stored velocity is the sign of
    the volume change.  For a profile constructed from strictly increasing
    time samples and as many volume samples with a positive first value,
    [velocity[i]] is negative exactly when the volume falls from sample
    [i] to sample [i+1] (a compression), positive exactly when it rises,
    and zero exactly when it stays. *)
Theorem X9_velocity_sign_follows_volume
        (ts vs : list (@num exact)) (p : VolumeProfile) (v0 : Q)
        (i : nat) (ti ti' vi vi' : Q) :
  length ts = length vs ->
  __init__ (K := exact) ts vs = Ok p ->
  strictly_increasing ts = true ->
  getitem vs 0 = Ok v0 ->
  ltb (Scalar := exact) zero v0 = true ->
  nth_error ts i = Some ti -> nth_error ts (S i) = Some ti' ->
  nth_error vs i = Some vi -> nth_error vs (S i) = Some vi' ->
  exists v,
    nth_error (velocity p) i = Some v /\
    ((v < 0)%Q <-> (vi' < vi)%Q) /\
    ((0 < v)%Q <-> (vi < vi')%Q) /\
    ((v == 0)%Q <-> (vi' == vi)%Q).
Proof.
  intros Hlen Hp Hstrict Hv0 Hpos Hti Hti' Hvi Hvi'.
  destruct (init_inv _ _ _ Hlen Hp) as [v0' [Hv0' ->]].
  rewrite Hv0 in Hv0'. inversion Hv0'; subst v0'. clear Hv0'.
  destruct (forward_differences_init ts vs v0 Hlen) as [Hfdlen Hfd].
  cbn [velocity].
  assert (Hi : S i < length ts) by (apply nth_error_Some; congruence).
  eexists. split.
  - rewrite nth_error_app1 by (rewrite Hfdlen; lia).
    apply (Hfd i ti ti' vi vi'); assumption.
  - apply exact_ltb_lt in Hpos. change (0 < v0)%Q in Hpos.
    pose proof (strictly_increasing_nth ts Hstrict i (S i) ti ti'
                  (Nat.lt_succ_diag_r i) Hti Hti') as Hlt.
    apply exact_ltb_lt in Hlt. simpl.
    set (k := (v0 * (ti' - ti))%Q).
    assert (Hk : (0 < k)%Q).
    { unfold k. apply Qmult_lt_0_compat; lra. }
    assert (Hv : ((vi' / v0 - vi / v0) / (ti' - ti) * k == vi' - vi)%Q).
    { unfold k. field. split; lra. }
    set (v := ((vi' / v0 - vi / v0) / (ti' - ti))%Q) in *.
    pose proof (Qmult_lt_r v 0 k Hk) as Hneg.
    pose proof (Qmult_lt_r 0 v k Hk) as Hposv.
    assert (Hk0 : ~ (k == 0)%Q) by lra.
    pose proof (Qmult_inj_r v 0 k Hk0) as Hzero.
    rewrite Hv, Qmult_0_l in Hneg, Hposv, Hzero.
    destruct Hneg as [N1 N2]. destruct Hposv as [P1 P2].
    destruct Hzero as [Z1 Z2].
    split; [|split]; split; intros H.
    + apply N2 in H. lra.
    + apply N1. lra.
    + apply P2 in H. lra.
    + apply P1. lra.
    + apply Z2 in H. lra.
    + apply Z1. lra.
Qed.

Lemma X9_velocity_sign_follows_volume_witness :
  exists v,
    nth_error [3 # 9; 3 # 9; 0]%Q 0 = Some v /\
    ((v < 0)%Q <-> (4 < 3)%Q) /\
    ((0 < v)%Q <-> (3 < 4)%Q) /\
    ((v == 0)%Q <-> (4 == 3)%Q).
Proof.
  apply (X9_velocity_sign_follows_volume exact_time [3; 4; 5]%Q
           {| time := exact_time; volume := [3 # 3; 4 # 3; 5 # 3]%Q;
              velocity := [3 # 9; 3 # 9; 0]%Q |} 3%Q 0 0%Q 1%Q 3%Q 4%Q);
    reflexivity.
Defined.

(** ** Repeated time samples in binary64 *)

Section Binary64Repeat.
Local Open Scope Z_scope.

Lemma float_is_finite_spec (x : float) :
  PrimFloat.is_finite x = SF_is_finite (Prim2SF x).
Proof.
  unfold PrimFloat.is_finite, is_nan, is_infinity.
  rewrite !eqb_spec, abs_spec.
  change (Prim2SF infinity) with (S754_infinity false).
  destruct (Prim2SF x) as [s|s| |s m e]; try reflexivity.
  - destruct s; reflexivity.
  - unfold SFeqb, SFcompare, SFabs.
    change (Pos.compare_cont Eq) with Pos.compare.
    rewrite Z.compare_refl, Pos.compare_refl. destruct s; reflexivity.
Qed.

(** The difference of two numbers that compare equal is a zero, or a NaN
    when they are the same infinity. *)
Lemma SF64sub_eq (X Y : spec_float) :
  SFeqb X Y = true ->
  SF_is_zero (SF64sub Y X) = true \/ SF_is_number (SF64sub Y X) = false.
Proof.
  intros Heq.
  destruct X as [sx|sx| |sx mx ex]; destruct Y as [sy|sy| |sy my ey];
    try discriminate Heq;
    try (destruct sx; discriminate Heq);
    try (destruct sy; discriminate Heq).
  - left. destruct sx, sy; reflexivity.
  - right. destruct sx, sy; try discriminate Heq; reflexivity.
  - left. unfold SFeqb, SFcompare in Heq.
    change (Pos.compare_cont Eq) with Pos.compare in Heq.
    assert (Hs : sx = sy) by (destruct sx, sy; try discriminate Heq; reflexivity).
    subst sy.
    assert (He : ex = ey).
    { apply Z.compare_eq. destruct (ex ?= ey); destruct sx;
        try discriminate Heq; reflexivity. }
    subst ey. rewrite Z.compare_refl in Heq.
    assert (Hm : mx = my).
    { apply Pos.compare_eq. destruct (mx ?= my)%positive; destruct sx;
        try discriminate Heq; reflexivity. }
    subst my. unfold SF64sub, SFsub. rewrite Z.sub_diag. reflexivity.
Qed.

Lemma SF64div_not_finite (N D : spec_float) :
  SF_is_zero D = true \/ SF_is_number D = false ->
  SF_is_finite (SF64div N D) = false.
Proof.
  intros [H | H]; destruct D as [sd|sd| |sd md ed]; try discriminate H;
    destruct N as [sn|sn| |sn mn en]; reflexivity.
Qed.

Lemma float_div_by_equal_delta (n x y : float) :
  PrimFloat.eqb x y = true ->
  PrimFloat.is_finite (n / (y - x)) = false.
Proof.
  rewrite eqb_spec, float_is_finite_spec, div_spec, sub_spec. intros Heq.
  apply SF64div_not_finite, SF64sub_eq, Heq.
Qed.
End Binary64Repeat.

(** X12.  In binary64 the constructor does not reject a repeated time
    sample.  Whenever it succeeds and two consecutive time samples
    [time[i]], [time[i+1]] compare equal, the entry [velocity[i]], if it
    is a computed quotient and not the appended last entry ([i+1 <
    len(velocity)]), is a quotient by a zero (or NaN) time delta: an
    infinity or a NaN.  For time and volume samples of equal length
    [velocity[i]] is always such a quotient. *)
Theorem X12_repeated_time_gives_non_finite_velocity
        (ts vs : list (@num binary64)) (p : VolumeProfile (K := binary64))
        (i : nat) (ti ti' : float) :
  __init__ (K := binary64) ts vs = Ok p ->
  nth_error ts i = Some ti ->
  nth_error ts (S i) = Some ti' ->
  PrimFloat.eqb ti ti' = true ->
  (length ts = length vs -> S i < length (velocity p)) /\
  (S i < length (velocity p) ->
   exists v, nth_error (velocity p) i = Some v /\
             PrimFloat.is_finite v = false).
Proof.
  intros Hp Hti Hti' Heq. split.
  - intros Hlen. rewrite (init_velocity_length _ _ _ Hlen Hp).
    apply nth_error_Some. congruence.
  - intros Hi. unfold __init__ in Hp.
    destruct (getitem vs 0) as [v0|e]; [|discriminate Hp].
    cbn [bind] in Hp.
    destruct (divide (np_diff (divide_scalar vs v0)) (np_diff ts))
      as [c|e] eqn:Hdiv; [|discriminate Hp].
    cbn [bind] in Hp. inversion Hp; subst p. clear Hp.
    cbn [velocity] in *. unfold np_append in *.
    rewrite length_app in Hi. cbn [length] in Hi.
    assert (Hic : i < length c) by lia.
    pose proof (np_diff_nth ts i ti ti' Hti Hti') as Hdt.
    destruct (divide_nth _ _ c i _ Hdiv Hdt Hic) as [x Hx].
    exists (x / (ti' - ti))%float. split.
    + rewrite nth_error_app1 by exact Hic. exact Hx.
    + apply float_div_by_equal_delta. exact Heq.
Qed.

Lemma X12_repeated_time_gives_non_finite_velocity_witness :
  (length repeated_time = length repeated_volume ->
   2 < length (velocity repeated_profile)) /\
  (2 < length (velocity repeated_profile) ->
   exists v, nth_error (velocity repeated_profile) 1 = Some v /\
             PrimFloat.is_finite v = false).
Proof.
  apply (X12_repeated_time_gives_non_finite_velocity
           repeated_time repeated_volume repeated_profile 1 1%float 1%float);
    reflexivity.
Defined.

(** * Further properties of the recording loops *)

Section LoopFacts.
Context {K : Scalar} {C : Run.Cantera}.

Lemma observed_append (done : list Run.Net) (net : Run.Net) :
  Run.append (Run.observed done) net = Run.observed (done ++ [net]).
Proof. unfold Run.append, Run.observed. simpl. rewrite !map_app. reflexivity. Qed.

Lemma loop_stopped (T_end t_end : num) (fuel : nat) (net : Run.Net)
      (r : Run.Recording) :
  Run.running T_end t_end net = false ->
  Run.loop T_end t_end fuel net r = (net, r, Run.Finished).
Proof. intros H. destruct fuel; simpl; rewrite H; reflexivity. Qed.

(** What a run from [net] adds to lists that already record [done]. *)
Lemma loop_from (T_end t_end : num) (fuel : nat) :
  forall (net : Run.Net) (done : list Run.Net),
  exists states final o,
    Run.loop T_end t_end fuel net (Run.observed done) =
    (final, Run.observed (done ++ states), o) /\
    Forall (fun s => Run.running T_end t_end s = true) states /\
    length states <= fuel /\
    match o with
    | Run.Finished =>
        Run.trajectory net states final /\
        Run.running T_end t_end final = false
    | Run.OutOfFuel =>
        Run.trajectory net states final /\
        Run.running T_end t_end final = true /\ length states = fuel
    | Run.Raised =>
        exists before,
          states = before ++ [final] /\
          Run.trajectory net before final /\ Run.netw_step final = None
    end.
Proof.
  induction fuel as [|fuel IH]; intros net done.
  - destruct (Run.running T_end t_end net) eqn:Hrun.
    + exists [], net, Run.OutOfFuel. simpl. rewrite Hrun, app_nil_r.
      repeat split; auto.
    + exists [], net, Run.Finished. rewrite (loop_stopped _ _ _ _ _ Hrun).
      rewrite app_nil_r. simpl. repeat split; auto.
  - destruct (Run.running T_end t_end net) eqn:Hrun.
    + simpl. rewrite Hrun, observed_append.
      destruct (Run.netw_step net) as [net'|] eqn:Hstep.
      * destruct (IH net' (done ++ [net]))
          as [states [final [o [Hloop [Hall [Hlen Ho]]]]]].
        exists (net :: states), final, o.
        rewrite Hloop, <- app_assoc. simpl.
        split; [reflexivity|]. split; [constructor; assumption|].
        split; [lia|].
        destruct o.
        -- destruct Ho as [Ht Hf]. split; [|exact Hf].
           split; [reflexivity|]. exists net'. split; assumption.
        -- destruct Ho as [before [Eb [Ht Hnone]]].
           exists (net :: before). subst states. split; [reflexivity|].
           split; [|exact Hnone].
           split; [reflexivity|]. exists net'. split; assumption.
        -- destruct Ho as [Ht [Hf Hl]]. split; [|split; [exact Hf | lia]].
           split; [reflexivity|]. exists net'. split; assumption.
      * exists [net], net, Run.Raised. simpl.
        split; [reflexivity|]. split; [constructor; [exact Hrun | constructor]|].
        split; [lia|]. exists []. simpl. auto.
    + exists [], net, Run.Finished. rewrite (loop_stopped _ _ _ _ _ Hrun).
      rewrite app_nil_r. simpl. repeat split; auto. lia.
Qed.

Lemma loop_to_first_violation (T_end t_end : num) (k : nat) :
  forall (net net_k : Run.Net) (fuel : nat) (done : list Run.Net),
    Run.iterate k net = Some net_k ->
    Run.running T_end t_end net_k = false ->
    (forall j s, j < k -> Run.iterate j net = Some s ->
                 Run.running T_end t_end s = true) ->
    k <= fuel ->
    exists states,
      Run.loop T_end t_end fuel net (Run.observed done) =
      (net_k, Run.observed (done ++ states), Run.Finished) /\
      length states = k /\
      forall j, j < k -> Run.iterate j net = nth_error states j.
Proof.
  induction k as [|k IH]; intros net net_k fuel done Hk Hstop Hrun Hfuel.
  - simpl in Hk. inversion Hk; subst net_k. exists [].
    rewrite (loop_stopped _ _ _ _ _ Hstop), app_nil_r.
    split; [reflexivity|]. split; [reflexivity|]. intros j Hj. lia.
  - simpl in Hk. destruct (Run.netw_step net) as [net'|] eqn:Hstep;
      [|discriminate Hk].
    destruct fuel as [|fuel]; [lia|].
    assert (Hnet : Run.running T_end t_end net = true).
    { apply (Hrun 0 net); [lia | reflexivity]. }
    destruct (IH net' net_k fuel (done ++ [net]) Hk Hstop) as
      [states [Hloop [Hlen Hnth]]].
    + intros j s Hj Hs. apply (Hrun (S j) s); [lia|].
      simpl. rewrite Hstep. exact Hs.
    + lia.
    + exists (net :: states). simpl. rewrite Hnet, Hstep, observed_append.
      rewrite Hloop, <- app_assoc. simpl.
      split; [reflexivity|]. split; [lia|].
      intros [|j] Hj; [reflexivity|]. simpl. rewrite Hstep.
      apply Hnth. lia.
Qed.
End LoopFacts.

(** X10.  However a run of the recording loop ends, its four lists record
    one and the same sequence of network states, so they have one length;
    the states are one integrator step apart, starting from the initial
    one, and each satisfied the loop condition when it was recorded.  If
    the condition ended the loop, the network is left in the first state
    that fails it, which is not recorded; if [netw.step()] raised, the
    last recorded state is the one whose step failed. *)
Theorem X10_recording_structure
        {K : Scalar} {C : Run.Cantera}
        (T_end t_end : num) (fuel : nat) (net : Run.Net) :
  exists states final o,
    Run.loop T_end t_end fuel net Run.empty =
    (final, Run.observed states, o) /\
    Forall (fun s => Run.running T_end t_end s = true) states /\
    length states <= fuel /\
    match o with
    | Run.Finished =>
        Run.trajectory net states final /\
        Run.running T_end t_end final = false
    | Run.OutOfFuel =>
        Run.trajectory net states final /\
        Run.running T_end t_end final = true /\ length states = fuel
    | Run.Raised =>
        exists before,
          states = before ++ [final] /\
          Run.trajectory net before final /\ Run.netw_step final = None
    end.
Proof.
  destruct (loop_from T_end t_end fuel net [])
    as [states [final [o [Hloop H]]]].
  exists states, final, o. split; [|exact H].
  change Run.empty with (Run.observed []). exact Hloop.
Qed.

(** X11.  The loop stops at the first state that fails its condition.  If
    the state after [k] integrator steps fails the condition and every
    earlier state satisfies it, then with at least [k] iterations allowed
    the loop finishes in that state, having recorded exactly the [k]
    earlier states, in order. *)
Theorem X11_loop_stops_at_first_violation
        {K : Scalar} {C : Run.Cantera}
        (T_end t_end : num) (k fuel : nat) (net net_k : Run.Net) :
  Run.iterate k net = Some net_k ->
  Run.running T_end t_end net_k = false ->
  (forall j s, j < k -> Run.iterate j net = Some s ->
               Run.running T_end t_end s = true) ->
  k <= fuel ->
  exists states,
    Run.loop T_end t_end fuel net Run.empty =
    (net_k, Run.observed states, Run.Finished) /\
    length states = k /\
    forall j, j < k -> Run.iterate j net = nth_error states j.
Proof.
  intros Hk Hstop Hrun Hfuel.
  destruct (loop_to_first_violation T_end t_end k net net_k fuel []
              Hk Hstop Hrun Hfuel) as [states [Hloop H]].
  exists states. split; [|exact H].
  change Run.empty with (Run.observed []). exact Hloop.
Qed.

Lemma X11_loop_stops_at_first_violation_witness :
  exists states,
    Run.notebook_loop (C := Run.stand_in) 10 0 Run.empty =
    (2, Run.observed states, Run.Finished) /\
    length states = 2 /\
    forall j, j < 2 ->
              Run.iterate (C := Run.stand_in) j 0 = nth_error states j.
Proof.
  apply (X11_loop_stops_at_first_violation (K := binary64)
           (C := Run.stand_in) 2500%float 0x1.999999999999ap-4%float
           2 10 0 2).
  - reflexivity.
  - reflexivity.
  - intros [|[|j]] s Hj Hs; inversion Hs; subst; try reflexivity; lia.
  - lia.
Defined.
